(** * invest-analysis-tools: fundamental screener and Markowitz optimizer

    A shallow embedding of [analysis/screener.py] and
    [optimization/markowitz.py], and the properties of their
    specification.

    Numbers.  A Python or NumPy float is modelled by [num]: a finite value
    is an exact rational, [NaN] is the not-a-number value that pandas also
    uses for a missing cell.  Rounding, overflow and the infinities are not
    modelled; a division by zero gives [NaN].

    Libraries.  The operations of pandas and NumPy that the code calls are
    written out on lists.  What the code cannot compute by itself is a
    parameter: the answers of yfinance, NumPy's [argsort] behind
    [sort_values], the square root, and the SLSQP solver of SciPy.

    Exceptions.  A function that can raise returns an [option]. *)

From Stdlib Require Import String QArith Qabs Qminmax Lqa ZArith Lia Bool List.
From Stdlib Require Import Permutation Sorted.
Import ListNotations.
Local Open Scope Q_scope.

(* ================================================================== *)
(** ** Floats *)

Module Num.

Inductive num : Type :=
| NaN
| Fin (q : Q).

Definition add (a b : num) : num :=
  match a, b with Fin x, Fin y => Fin (x + y) | _, _ => NaN end.

Definition sub (a b : num) : num :=
  match a, b with Fin x, Fin y => Fin (x - y) | _, _ => NaN end.

Definition mul (a b : num) : num :=
  match a, b with Fin x, Fin y => Fin (x * y) | _, _ => NaN end.

Definition div (a b : num) : num :=
  match a, b with
  | Fin x, Fin y => if Qeq_bool y 0 then NaN else Fin (x / y)
  | _, _ => NaN
  end.

Definition neg (a : num) : num :=
  match a with Fin x => Fin (- x) | NaN => NaN end.

(** Comparisons are false as soon as one side is [NaN]. *)
Definition leb (a b : num) : bool :=
  match a, b with Fin x, Fin y => Qle_bool x y | _, _ => false end.

Definition ltb (a b : num) : bool :=
  match a, b with Fin x, Fin y => negb (Qle_bool y x) | _, _ => false end.

Definition geb (a b : num) : bool := leb b a.
Definition gtb (a b : num) : bool := ltb b a.

Definition isna (a : num) : bool :=
  match a with NaN => true | Fin _ => false end.

(** [np.maximum]: element maximum, a [NaN] operand wins. *)
Definition maximum (a b : num) : num :=
  match a, b with
  | Fin x, Fin y => Fin (if Qle_bool x y then y else x)
  | _, _ => NaN
  end.

(** Python's builtin [min(a, b)]: [b] when [b < a], else [a]. *)
Definition py_min (a b : num) : num := if ltb b a then b else a.

(** Equality of floats up to the representation of the rational. *)
Definition equiv (a b : num) : Prop :=
  match a, b with
  | NaN, NaN => True
  | Fin x, Fin y => x == y
  | _, _ => False
  end.

Definition of_nat (n : nat) : num := Fin (inject_Z (Z.of_nat n)).

Definition sum (l : list num) : num := fold_left add l (Fin 0).

End Num.

Import Num.

(* ================================================================== *)
(** ** analysis/screener.py *)

Module Screener.

(** The thresholds of [FundamentalScreener.__init__]. *)
Record FundamentalScreener : Type := {
  min_roe : num;
  max_debt_to_equity : num;
  min_profit_margin : num;
  max_peg : num;
  top_n : Z
}.

Definition default_screener : FundamentalScreener :=
  {| min_roe := Fin (15 # 100);
     max_debt_to_equity := Fin 1;
     min_profit_margin := Fin (10 # 100);
     max_peg := Fin 2;
     top_n := 15%Z |}.

(** A value found in the [info] dictionary of yfinance: [None] (also an
    absent key, through [info.get]), a float, or any other object together
    with what [float(value)] makes of it ([None] when it raises
    [TypeError] or [ValueError]). *)
Inductive pyvalue : Type :=
| PyNone
| PyFloat (x : num)
| PyObject (as_float : option num).

Definition _safe_float (value : pyvalue) (default : option num) : option num :=
  match value with
  | PyNone => default
  | PyFloat x => if isna x then default else Some x
  | PyObject (Some x) => Some x
  | PyObject None => default
  end.

(** The four fields read from [info]. *)
Record info : Type := {
  returnOnEquity : pyvalue;
  debtToEquity : pyvalue;
  profitMargins : pyvalue;
  trailingPegRatio : pyvalue;
  operatingMargins : pyvalue
}.

(** One record of metrics, and one row of the data frame built from the
    records: a cell is [None] (Python's [None] in a column of dtype
    object) or a float, [NaN] when the metric is missing. *)
Record metrics : Type := {
  Ticker : string;
  ROE : option num;
  DebtToEquity : option num;
  ProfitMargin : option num;
  PEG : option num
}.

Definition _score_row (self : FundamentalScreener) (row : metrics) : num :=
  let score := Fin 0 in
  let score :=
    match ROE row with
    | Some roe =>
        if geb roe (min_roe self)
        then add score (add (Fin 1) (py_min (sub roe (min_roe self)) (Fin (2 # 10))))
        else score
    | None => score
    end in
  let score :=
    match DebtToEquity row with
    | Some de => if leb de (max_debt_to_equity self) then add score (Fin 1) else score
    | None => score
    end in
  let score :=
    match ProfitMargin row with
    | Some pm => if geb pm (min_profit_margin self) then add score (Fin 1) else score
    | None => score
    end in
  let score :=
    match PEG row with
    | Some peg =>
        if ltb peg (max_peg self) && gtb peg (Fin 0) then add score (Fin 1) else score
    | None => score
    end in
  score.

(** [Series.isna()] and the comparisons of a column with a scalar, on one
    cell: a missing cell compares false. *)
Definition cell_isna (c : option num) : bool :=
  match c with None => true | Some x => isna x end.

Definition cell_test (test : num -> bool) (c : option num) : bool :=
  match c with None => false | Some x => test x end.

(** [pd.DataFrame(rows)]: a column in which every record holds [None]
    keeps dtype object and its [None]s; otherwise the column is float64 and
    [None] becomes [NaN]. *)
Definition all_none (col : list (option num)) : bool :=
  forallb (fun c => match c with None => true | Some _ => false end) col.

Definition to_cell (object_column : bool) (c : option num) : option num :=
  match c with
  | None => if object_column then None else Some NaN
  | Some x => Some x
  end.

Definition to_row (rows : list metrics) (m : metrics) : metrics :=
  {| Ticker := Ticker m;
     ROE := to_cell (all_none (map ROE rows)) (ROE m);
     DebtToEquity := to_cell (all_none (map DebtToEquity rows)) (DebtToEquity m);
     ProfitMargin := to_cell (all_none (map ProfitMargin rows)) (ProfitMargin m);
     PEG := to_cell (all_none (map PEG rows)) (PEG m) |}.

Definition DataFrame (rows : list metrics) : list metrics :=
  map (to_row rows) rows.

(** The boolean mask of [filter_stocks], on one row. *)
Definition mask (self : FundamentalScreener) (row : metrics) : bool :=
  let m := true in
  let m := m && (cell_isna (ROE row)
                 || cell_test (fun x => geb x (min_roe self)) (ROE row)) in
  let m := m && (cell_isna (DebtToEquity row)
                 || cell_test (fun x => leb x (max_debt_to_equity self)) (DebtToEquity row)) in
  let m := m && (cell_isna (ProfitMargin row)
                 || cell_test (fun x => geb x (min_profit_margin self)) (ProfitMargin row)) in
  let m := m && (cell_isna (PEG row)
                 || (cell_test (fun x => gtb x (Fin 0)) (PEG row)
                     && cell_test (fun x => ltb x (max_peg self)) (PEG row))) in
  m.

(** [df.iloc[indexer]]: the rows at the given positions. *)
Definition take {A : Type} (l : list A) (indexer : list nat) : list A :=
  flat_map (fun i => match nth_error l i with Some x => [x] | None => [] end) indexer.

(** [df.head(n)]: the first [n] rows, all but the last [-n] when [n] is
    negative. *)
Definition head {A : Type} (n : Z) (l : list A) : list A :=
  if (0 <=? n)%Z then firstn (Z.to_nat n) l
  else firstn (length l - Z.to_nat (- n)) l.

Section WithEnvironment.

(** [yf.Ticker(ticker).info]; [None] when the fetch raises. *)
Variable yf_info : string -> option info.

(** NumPy's [argsort] with pandas' default [kind="quicksort"]: the
    positions of the keys in ascending order of key. *)
Variable argsort : list Q -> list nat.

Definition _get_metrics (self : FundamentalScreener) (ticker : string)
  : option metrics :=
  match yf_info ticker with
  | None => None
  | Some i =>
      let roe := _safe_float (returnOnEquity i) None in
      let debt_eq := _safe_float (debtToEquity i) None in
      let profit_margin := _safe_float (profitMargins i) None in
      let peg := _safe_float (trailingPegRatio i) None in
      let profit_margin :=
        match profit_margin with
        | None => _safe_float (operatingMargins i) None
        | Some _ => profit_margin
        end in
      Some {| Ticker := ticker; ROE := roe; DebtToEquity := debt_eq;
              ProfitMargin := profit_margin; PEG := peg |}
  end.

(** [nargsort] of pandas, which [sort_values] uses for a single key:
    the missing keys are set apart and placed last, the others are
    sorted by [argsort]; for a descending sort the keys are reversed
    before and the positions after. *)
Definition non_nan (items : list num) : list (nat * Q) :=
  flat_map (fun p => match snd p with Fin q => [(fst p, q)] | NaN => [] end)
           (combine (seq 0 (length items)) items).

Definition nan_idx (items : list num) : list nat :=
  flat_map (fun p => match snd p with Fin _ => [] | NaN => [fst p] end)
           (combine (seq 0 (length items)) items).

Definition nargsort (items : list num) (ascending : bool) : list nat :=
  let non_nans := map snd (non_nan items) in
  let non_nan_idx := map fst (non_nan items) in
  let non_nans := if ascending then non_nans else rev non_nans in
  let non_nan_idx := if ascending then non_nan_idx else rev non_nan_idx in
  let indexer := take non_nan_idx (argsort non_nans) in
  let indexer := if ascending then indexer else rev indexer in
  indexer ++ nan_idx items.

(** [df.sort_values("Score", ascending=False)] on rows paired with
    their score. *)
Definition sort_values (df : list (metrics * num)) (ascending : bool)
  : list (metrics * num) :=
  take df (nargsort (map snd df) ascending).

(** The rows that reach the data frame, and those that the mask keeps. *)
Definition fetched (self : FundamentalScreener) (tickers : list string)
  : list metrics :=
  flat_map (fun t => match _get_metrics self t with
                     | Some m => [m]
                     | None => []
                     end) tickers.

Definition retained (self : FundamentalScreener) (tickers : list string)
  : list metrics :=
  filter (mask self) (DataFrame (fetched self tickers)).

(** The retained rows with their [Score] column, and the order in which
    [sort_values] lists them. *)
Definition scored (self : FundamentalScreener) (tickers : list string)
  : list (metrics * num) :=
  map (fun row => (row, _score_row self row)) (retained self tickers).

Definition ranking (self : FundamentalScreener) (tickers : list string)
  : list nat :=
  nargsort (map snd (scored self tickers)) false.

Definition filter_stocks (self : FundamentalScreener) (tickers : list string)
  : list (metrics * num) :=
  let rows := fetched self tickers in
  match rows with
  | [] => []
  | _ =>
      let df := DataFrame rows in
      let df := filter (mask self) df in
      let df := map (fun row => (row, _score_row self row)) df in
      head (top_n self) (sort_values df false)
  end.

End WithEnvironment.

End Screener.

(* ================================================================== *)
(** ** optimization/markowitz.py *)

Module Markowitz.

(** A pandas data frame of floats: the column labels and the rows, in
    date order.  The row labels play no part in the code and are left
    out. *)
Record DataFrame : Type := {
  columns : list string;
  rows : list (list num)
}.

(** [pd.DataFrame()] *)
Definition empty_frame : DataFrame := {| columns := []; rows := [] |}.

(** [df.empty]: some axis has length 0. *)
Definition empty (df : DataFrame) : bool :=
  match columns df, rows df with
  | [], _ => true
  | _, [] => true
  | _, _ => false
  end.

(** [df.dropna(how="all")]: the rows with at least one value. *)
Definition dropna_all (df : DataFrame) : DataFrame :=
  {| columns := columns df;
     rows := filter (fun r => negb (forallb isna r)) (rows df) |}.

(** [df.dropna()]: the rows without a missing value. *)
Definition dropna (df : DataFrame) : DataFrame :=
  {| columns := columns df;
     rows := filter (fun r => forallb (fun c => negb (isna c)) r) (rows df) |}.

(** Cell by cell operation on two rows, and on two blocks of rows. *)
Definition map2 {A B C : Type} (f : A -> B -> C) (l : list A) (l' : list B)
  : list C :=
  map (fun p => f (fst p) (snd p)) (combine l l').

(** Forward fill: a missing cell takes the last value above it. *)
Definition fill_row (prev cur : list num) : list num :=
  map2 (fun p c => if isna c then p else c) prev cur.

Fixpoint ffill_from (prev : list num) (data : list (list num))
  : list (list num) :=
  match data with
  | [] => []
  | r :: rest => let r' := fill_row prev r in r' :: ffill_from r' rest
  end.

Definition ffill (data : list (list num)) : list (list num) :=
  match data with
  | [] => []
  | r :: rest => r :: ffill_from r rest
  end.

(** [data.shift(1)]: a first row of [NaN], then the rows but the last. *)
Definition shift (data : list (list num)) : list (list num) :=
  match data with
  | [] => []
  | r :: _ => map (fun _ => NaN) r :: removelast data
  end.

(** [data / data.shift(1) - 1] on one cell. *)
Definition change (prev cur : num) : num := sub (div cur prev) (Fin 1).

(** [df.pct_change()].  pandas before 3.0 forward-fills the missing
    prices first ([fill_method="pad"]), pandas 3.0 does not: [pad] says
    which. *)
Definition pct_change (pad : bool) (df : DataFrame) : DataFrame :=
  let data := if pad then ffill (rows df) else rows df in
  {| columns := columns df;
     rows := map2 (map2 change) (shift data) data |}.

Definition column (j : nat) (data : list (list num)) : list num :=
  map (fun r => nth j r NaN) data.

(** [Series.mean()]: the mean of the values present, [NaN] without any. *)
Definition mean (col : list num) : num :=
  let vals := filter (fun c => negb (isna c)) col in
  div (sum vals) (of_nat (List.length vals)).

(** One entry of [np.cov(..., ddof=1)]: [NaN] when the degrees of
    freedom are not positive. *)
Definition cov_entry (xi xj : list num) : num :=
  let t := List.length xi in
  if (Z.of_nat t - 1 <=? 0)%Z then NaN
  else
    let mi := div (sum xi) (of_nat t) in
    let mj := div (sum xj) (of_nat t) in
    div (sum (map2 (fun a b => mul (sub a mi) (sub b mj)) xi xj))
        (Fin (inject_Z (Z.of_nat t - 1))).

(** [df.mean().values] and [df.cov().values] *)
Definition mean_values (df : DataFrame) : list num :=
  map (fun j => mean (column j (rows df))) (seq 0 (List.length (columns df))).

Definition cov_values (df : DataFrame) : list (list num) :=
  let n := List.length (columns df) in
  map (fun i =>
         map (fun j => cov_entry (column i (rows df)) (column j (rows df)))
             (seq 0 n))
      (seq 0 n).

(** [ndarray.size]; the empty array of the constructor is the matrix
    without rows. *)
Definition size (a : list (list num)) : nat := List.length (concat a).

Record PortfolioOptimizer : Type := {
  risk_free_rate : num;
  _prices : DataFrame;
  _returns : DataFrame;
  _cov_matrix : list (list num);
  _mean_returns : list num
}.

(** The constructor caches [np.array([])], an array with one axis and no
    element, for the covariance and the mean; the only thing the code
    reads of it before [set_prices] is its size, 0.  The objective is
    called on the state that [set_prices] leaves. *)
Definition __init__ (risk_free_rate : num) : PortfolioOptimizer :=
  {| risk_free_rate := risk_free_rate;
     _prices := empty_frame;
     _returns := empty_frame;
     _cov_matrix := [];
     _mean_returns := [] |}.

(** [np.dot] of two vectors; [None] is the [ValueError] for shapes that
    are not aligned. *)
Fixpoint dot (a b : list num) : option num :=
  match a, b with
  | [], [] => Some (Fin 0)
  | x :: a', y :: b' =>
      match dot a' b' with
      | Some r => Some (add (mul x y) r)
      | None => None
      end
  | _, _ => None
  end.

(** [np.dot] of a matrix and a vector. *)
Fixpoint matvec (m : list (list num)) (v : list num) : option (list num) :=
  match m with
  | [] => Some []
  | r :: m' =>
      match dot r v, matvec m' v with
      | Some d, Some rest => Some (d :: rest)
      | _, _ => None
      end
  end.

(** A Python dict in insertion order: setting a key that is present
    replaces its value in place. *)
Definition dict : Type := list (string * num).

Fixpoint dict_set (d : dict) (k : string) (v : num) : dict :=
  match d with
  | [] => [(k, v)]
  | (k', v') :: d' =>
      if String.eqb k k' then (k, v) :: d' else (k', v') :: dict_set d' k v
  end.

(** [dict(zip(keys, values))] *)
Definition dict_zip (keys : list string) (values : list num) : dict :=
  fold_left (fun d kv => dict_set d (fst kv) (snd kv)) (combine keys values) [].

Definition values (d : dict) : list num := map snd d.

(** [np.ones(n) / n] *)
Definition equal_weight (n : nat) : list num :=
  map (fun one => div one (of_nat n)) (repeat (Fin 1) n).

(** [weights = np.maximum(weights, 0.0); weights /= weights.sum()] *)
Definition clip (weights : list num) : list num :=
  map (fun w => maximum w (Fin 0)) weights.

Definition renormalize (weights : list num) : list num :=
  let weights := clip weights in
  let total := sum weights in
  map (fun w => div w total) weights.

(** What [scipy.optimize.minimize] returns, as far as the code reads it. *)
Record OptimizeResult : Type := {
  success : bool;
  x : list num
}.

Section WithEnvironment.

(** The version of pandas, see [pct_change]. *)
Variable pad : bool.

(** The square root on the non-negative rationals. *)
Variable sqrtQ : Q -> Q.

(** [scipy.optimize.minimize] with [method="SLSQP"]: the objective, the
    start, the bounds, the equality constraint, [maxiter] and [ftol];
    [None] when the call raises. *)
Variable minimize :
  (list num -> option num) -> list num -> list (num * num) ->
  (list num -> num) -> Z -> Q -> option OptimizeResult.

Definition np_sqrt (a : num) : num :=
  match a with
  | Fin q => if Qle_bool 0 q then Fin (sqrtQ q) else NaN
  | NaN => NaN
  end.

Definition set_prices (self : PortfolioOptimizer) (prices_df : DataFrame)
  : PortfolioOptimizer :=
  let prices := dropna_all prices_df in
  let returns := dropna (pct_change pad prices) in
  {| risk_free_rate := risk_free_rate self;
     _prices := prices;
     _returns := returns;
     _mean_returns := map (fun m => mul m (Fin 252)) (mean_values returns);
     _cov_matrix := map (map (fun c => mul c (Fin 252))) (cov_values returns) |}.

(** The quadratic form [w . (cov . w)] under the square root. *)
Definition variance (self : PortfolioOptimizer) (weights : list num)
  : option num :=
  match matvec (_cov_matrix self) weights with
  | Some cw => dot weights cw
  | None => None
  end.

Definition _negative_sharpe (self : PortfolioOptimizer) (weights : list num)
  : option num :=
  match dot weights (_mean_returns self) with
  | None => None
  | Some port_return =>
      match variance self weights with
      | None => None
      | Some var =>
          let port_vol := np_sqrt var in
          if leb port_vol (Fin 0) then Some (Fin 0)
          else
            let sharpe := div (sub port_return (risk_free_rate self)) port_vol in
            Some (neg sharpe)
      end
  end.

(** The call of the solver in [optimize_sharpe_ratio]. *)
Definition solve (self : PortfolioOptimizer) : option OptimizeResult :=
  let n := List.length (columns (_returns self)) in
  let bounds := map (fun _ => (Fin 0, Fin 1)) (seq 0 n) in
  let constraint := fun w => sub (sum w) (Fin 1) in
  let x0 := equal_weight n in
  minimize (_negative_sharpe self) x0 bounds constraint 500%Z (1 # 1000000000).

(** [None] when the solver raises. *)
Definition optimize_sharpe_ratio (self : PortfolioOptimizer) : option dict :=
  if empty (_returns self) || (size (_cov_matrix self) =? 0)%nat then Some []
  else
    let n := List.length (columns (_returns self)) in
    let tickers := columns (_returns self) in
    match solve self with
    | None => None
    | Some result =>
        let weights :=
          if negb (success result) then equal_weight n
          else renormalize (x result) in
        Some (dict_zip tickers weights)
    end.

End WithEnvironment.

End Markowitz.

(* ================================================================== *)
(** ** The vocabulary of the specification *)

Module ScreenerSpec.
Import Screener.

(** A metric is missing, or present with a value that meets the
    threshold. *)
Definition missing (c : option num) : Prop := c = None \/ c = Some NaN.

Definition at_least (c : option num) (threshold : num) : Prop :=
  exists q t, c = Some (Fin q) /\ threshold = Fin t /\ t <= q.

Definition at_most (c : option num) (threshold : num) : Prop :=
  exists q t, c = Some (Fin q) /\ threshold = Fin t /\ q <= t.

Definition positive_below (c : option num) (threshold : num) : Prop :=
  exists q t, c = Some (Fin q) /\ threshold = Fin t /\ 0 < q /\ q < t.

Definition roe_ok (self : FundamentalScreener) (m : metrics) : Prop :=
  at_least (ROE m) (min_roe self).
Definition debt_ok (self : FundamentalScreener) (m : metrics) : Prop :=
  at_most (DebtToEquity m) (max_debt_to_equity self).
Definition margin_ok (self : FundamentalScreener) (m : metrics) : Prop :=
  at_least (ProfitMargin m) (min_profit_margin self).
Definition peg_ok (self : FundamentalScreener) (m : metrics) : Prop :=
  positive_below (PEG m) (max_peg self).

(** The filtering policy of the code: each criterion is met or its
    metric missing, where the PEG criterion asks for a value strictly
    between 0 and the maximum. *)
Definition passes (self : FundamentalScreener) (m : metrics) : Prop :=
  (missing (ROE m) \/ roe_ok self m) /\
  (missing (DebtToEquity m) \/ debt_ok self m) /\
  (missing (ProfitMargin m) \/ margin_ok self m) /\
  (missing (PEG m) \/ peg_ok self m).

(** The policy as the specification words it: every criterion, the PEG
    included, holds as soon as the metric is on the right side of its
    threshold (a maximum for the PEG). *)
Definition passes_stated (self : FundamentalScreener) (m : metrics) : Prop :=
  (missing (ROE m) \/ at_least (ROE m) (min_roe self)) /\
  (missing (DebtToEquity m)
   \/ at_most (DebtToEquity m) (max_debt_to_equity self)) /\
  (missing (ProfitMargin m)
   \/ at_least (ProfitMargin m) (min_profit_margin self)) /\
  (missing (PEG m) \/ at_most (PEG m) (max_peg self)).

(** The contract of NumPy's [argsort]: a permutation of the positions
    that lists the keys in ascending order; a stable one lists equal keys
    by ascending position. *)
Definition key (keys : list Q) (i : nat) : Q := nth i keys 0.

Definition argsort_spec (argsort : list Q -> list nat) : Prop :=
  forall keys,
    Permutation (argsort keys) (seq 0 (List.length keys)) /\
    StronglySorted (fun i j => key keys i <= key keys j) (argsort keys).

Definition argsort_stable (argsort : list Q -> list nat) : Prop :=
  forall keys,
    StronglySorted
      (fun i j => key keys i < key keys j
                  \/ (key keys i == key keys j /\ (i < j)%nat))
      (argsort keys).




(** Insertion sort of the positions, from the last to the first; a
    position goes in front of the first one whose key it [precedes]. *)
Fixpoint insert (precedes : nat -> nat -> bool) (i : nat) (l : list nat)
  : list nat :=
  match l with
  | [] => [i]
  | j :: l' => if precedes i j then i :: l else j :: insert precedes i l'
  end.

Definition insertion_argsort (before : Q -> Q -> bool) (keys : list Q)
  : list nat :=
  fold_right (insert (fun i j => before (key keys i) (key keys j))) []
             (seq 0 (List.length keys)).

(** In front of the keys that are not smaller: equal keys keep their
    order. *)
Definition stable_argsort : list Q -> list nat :=
  insertion_argsort Qle_bool.

(** In front of the larger keys only: equal keys come out reversed. *)
Definition unstable_argsort : list Q -> list nat :=
  insertion_argsort (fun a b => negb (Qle_bool b a)).

(** Sample data. *)
Definition sample_info (roe de pm peg : pyvalue) : info :=
  {| returnOnEquity := roe; debtToEquity := de; profitMargins := pm;
     trailingPegRatio := peg; operatingMargins := PyNone |}.

Definition sample_yf (ticker : string) : option info :=
  if String.eqb ticker "AAA" then
    Some (sample_info (PyFloat (Fin (4 # 10))) (PyFloat (Fin (5 # 10)))
                      (PyFloat (Fin (2 # 10))) (PyFloat (Fin 1)))
  else if String.eqb ticker "BBB" then
    Some (sample_info (PyFloat (Fin (4 # 10))) (PyFloat (Fin (5 # 10)))
                      (PyFloat (Fin (2 # 10))) (PyFloat (Fin (3 # 2))))
  else if String.eqb ticker "CCC" then
    Some (sample_info (PyFloat (Fin (9 # 10))) (PyFloat (Fin 3))
                      (PyFloat (Fin (5 # 10))) (PyFloat (Fin 1)))
  else if String.eqb ticker "DDD" then
    Some (sample_info PyNone (PyFloat (Fin (5 # 10)))
                      (PyFloat (Fin (2 # 10))) (PyFloat (Fin 1)))
  else None.

Definition sample_tickers : list string := ["AAA"; "CCC"; "DDD"]%string.

(** All four metrics pass. *)
Definition sample_full : metrics :=
  {| Ticker := "AAA"; ROE := Some (Fin (4 # 10));
     DebtToEquity := Some (Fin (5 # 10)); ProfitMargin := Some (Fin (2 # 10));
     PEG := Some (Fin 1) |}.

(** The PEG is missing and the other metrics pass. *)
Definition sample_no_peg : metrics :=
  {| Ticker := "EEE"; ROE := Some (Fin (4 # 10));
     DebtToEquity := Some (Fin (5 # 10)); ProfitMargin := Some (Fin (2 # 10));
     PEG := None |}.

(** The ROE is missing and the other metrics pass. *)
Definition sample_no_roe : metrics :=
  {| Ticker := "DDD"; ROE := Some NaN;
     DebtToEquity := Some (Fin (5 # 10)); ProfitMargin := Some (Fin (2 # 10));
     PEG := Some (Fin 1) |}.

(** The debt is three times the equity, the other metrics pass. *)
Definition sample_debt : metrics :=
  {| Ticker := "CCC"; ROE := Some (Fin (9 # 10));
     DebtToEquity := Some (Fin 3); ProfitMargin := Some (Fin (5 # 10));
     PEG := Some (Fin 1) |}.

(** A PEG equal to the maximum, and a negative PEG; the other metrics
    pass. *)
Definition peg_yf (ticker : string) : option info :=
  if String.eqb ticker "PPP" then
    Some (sample_info (PyFloat (Fin (4 # 10))) (PyFloat (Fin (5 # 10)))
                      (PyFloat (Fin (2 # 10))) (PyFloat (Fin 2)))
  else if String.eqb ticker "NNN" then
    Some (sample_info (PyFloat (Fin (4 # 10))) (PyFloat (Fin (5 # 10)))
                      (PyFloat (Fin (2 # 10))) (PyFloat (Fin (- (1 # 2)))))
  else None.

Definition peg_tickers : list string := ["PPP"; "NNN"]%string.

Definition sample_peg_at_max : metrics :=
  {| Ticker := "PPP"; ROE := Some (Fin (4 # 10));
     DebtToEquity := Some (Fin (5 # 10)); ProfitMargin := Some (Fin (2 # 10));
     PEG := Some (Fin 2) |}.

Definition sample_peg_negative : metrics :=
  {| Ticker := "NNN"; ROE := Some (Fin (4 # 10));
     DebtToEquity := Some (Fin (5 # 10)); ProfitMargin := Some (Fin (2 # 10));
     PEG := Some (Fin (- (1 # 2))) |}.


(** [FundamentalScreener(top_n=2)] *)
Definition top_two_screener : FundamentalScreener :=
  {| min_roe := Fin (15 # 100);
     max_debt_to_equity := Fin 1;
     min_profit_margin := Fin (10 # 100);
     max_peg := Fin 2;
     top_n := 2%Z |}.

(** What yfinance gives for the asset without ROE. *)
Definition sample_roe_unknown : metrics :=
  {| Ticker := "DDD"; ROE := None;
     DebtToEquity := Some (Fin (5 # 10)); ProfitMargin := Some (Fin (2 # 10));
     PEG := Some (Fin 1) |}.

(** Three assets that pass the mask. *)
Definition passing_tickers : list string := ["AAA"; "BBB"; "DDD"]%string.

End ScreenerSpec.

Module MarkowitzSpec.
Import Markowitz.

(** Every row has one cell per column. *)
Definition well_formed (df : DataFrame) : Prop :=
  Forall (fun r => List.length r = List.length (columns df)) (rows df).

Definition Qsum (l : list Q) : Q := fold_left Qplus l 0.

(** [np.maximum(w, 0.0)] on a finite value. *)
Definition clipQ (q : Q) : Q := if Qle_bool q 0 then 0 else q.

(** A solver result that meets the bounds and the budget constraint up
    to a tolerance: [n] finite values, each in $[0 - tol, 1 + tol]$, whose
    sum is within [tol] of 1. *)
Definition feasible (tol : Q) (n : nat) (x : list num) : Prop :=
  exists qs,
    x = map Fin qs /\ List.length qs = n /\
    Forall (fun q => - tol <= q /\ q <= 1 + tol) qs /\
    Qabs (Qsum qs - 1) <= tol.

(** Long-only, fully invested weights. *)
Definition in_unit_interval (w : num) : Prop :=
  exists q, w = Fin q /\ 0 <= q /\ q <= 1.

Definition sums_to_one (weights : list num) : Prop :=
  exists s, sum weights = Fin s /\ Qabs (s - 1) <= 1 # 1000000.

(** The cleaning policy in the words of the specification: a price row
    is kept when some asset has a value; a return row is kept when no
    asset is missing. *)
Definition has_value (r : list num) : bool :=
  existsb (fun c => negb (isna c)) r.

Definition no_missing (r : list num) : bool := negb (existsb isna r).

(** The dot product as the sum of the products, and the quadratic form
    [w . (cov . w)] under the square root of the volatility. *)
Definition weighted_sum (a b : list num) : num := sum (map2 mul a b).

Definition quadratic_form (cov : list (list num)) (w : list num) : num :=
  weighted_sum w (map (fun row => weighted_sum row w) cov).

(** The return series in the words of the specification: the cleaned
    price matrix minus its first row, each cell the simple percentage
    change $(p_t - p_{t-1}) / p_{t-1}$. *)
Definition return_series_spec (cleaned : list (list Q)) : list (list Q) :=
  map2 (map2 (fun prev cur => (cur - prev) / prev)) cleaned (tl cleaned).

(** Sample data. *)
Definition sample_sqrt (q : Q) : Q :=
  Z.sqrt (Qnum q * Zpos (Qden q)) # Qden q.

Definition sample_prices : DataFrame :=
  {| columns := ["AAA"; "BBB"]%string;
     rows := [[Fin 100; Fin 50]; [NaN; NaN]; [Fin 110; Fin 50];
              [Fin 99; Fin 55]; [Fin 110; Fin 44]] |}.

Definition sample_cleaned : list (list Q) :=
  [[100; 50]; [110; 50]; [99; 55]; [110; 44]].

(** The first price of the second asset is missing. *)
Definition gap_prices : DataFrame :=
  {| columns := ["AAA"; "BBB"]%string;
     rows := [[Fin 1; NaN]; [Fin 2; Fin 4]; [Fin 4; Fin 8]] |}.

Definition one_row_prices : DataFrame :=
  {| columns := ["AAA"; "BBB"]%string;
     rows := [[NaN; NaN]; [Fin 100; Fin 50]; [NaN; NaN]] |}.

(** A solver that reports success with a result on the boundary, and one
    that gives up at its start. *)
Definition sample_minimize
    (objective : list num -> option num) (x0 : list num)
    (bounds : list (num * num)) (constraint : list num -> num)
    (maxiter : Z) (ftol : Q) : option OptimizeResult :=
  Some {| success := true;
          x := match x0 with
               | [] => []
               | _ :: rest => Fin (1 + (1 # 1000000000))
                              :: map (fun _ => Fin (- (1 # 1000000000))) rest
               end |}.

Definition failing_minimize
    (objective : list num -> option num) (x0 : list num)
    (bounds : list (num * num)) (constraint : list num -> num)
    (maxiter : Z) (ftol : Q) : option OptimizeResult :=
  Some {| success := false; x := x0 |}.

Definition sample_optimizer : PortfolioOptimizer := __init__ (Fin (2 # 100)).

End MarkowitzSpec.

From Stdlib Require Ascii.

(* ================================================================== *)
(** ** More vocabulary *)

Module ScreenerMore.
Import Screener.

(** One point for a metric that is there. *)
Definition present (c : option num) : Q := if cell_isna c then 0 else 1.

(** The bonus of [_score_row] for a return on equity above its
    threshold. *)
Definition roe_bonus_value (self : FundamentalScreener) (row : metrics) : Q :=
  match ROE row, min_roe self with
  | Some (Fin q), Fin t => Qmin (q - t) (2 # 10)
  | _, _ => 0
  end.

(** The thresholds of [a] are at most as strict as those of [b]. *)
Definition looser (a b : FundamentalScreener) : Prop :=
  leb (min_roe a) (min_roe b) = true /\
  leb (max_debt_to_equity b) (max_debt_to_equity a) = true /\
  leb (min_profit_margin a) (min_profit_margin b) = true /\
  leb (max_peg b) (max_peg a) = true.

(** The default thresholds but a minimum ROE of 30 percent. *)
Definition strict_screener : FundamentalScreener :=
  {| min_roe := Fin (30 # 100);
     max_debt_to_equity := Fin 1;
     min_profit_margin := Fin (10 # 100);
     max_peg := Fin 2;
     top_n := 15%Z |}.

(** The fetch of a ticker succeeded. *)
Definition has_info (yf_info : string -> option info) (ticker : string) : bool :=
  match yf_info ticker with Some _ => true | None => false end.

(** No field of the answer can be read as a number. *)
Definition no_metric (i : info) : Prop :=
  _safe_float (returnOnEquity i) None = None /\
  _safe_float (debtToEquity i) None = None /\
  _safe_float (profitMargins i) None = None /\
  _safe_float (operatingMargins i) None = None /\
  _safe_float (trailingPegRatio i) None = None.

(** An answer without any metric for one ticker. *)
Definition blank_yf (ticker : string) : option info :=
  if String.eqb ticker "NEW"
  then Some {| returnOnEquity := PyNone; debtToEquity := PyFloat NaN;
               profitMargins := PyObject None; trailingPegRatio := PyNone;
               operatingMargins := PyNone |}
  else ScreenerSpec.sample_yf ticker.

Definition blank_tickers : list string := ["AAA"; "NEW"]%string.

End ScreenerMore.

Module MarkowitzMore.
Import Markowitz.

(** The entry of a matrix at a row and a column. *)
Definition entry (m : list (list num)) (i j : nat) : num :=
  nth j (nth i m []) NaN.



(** Two price rows: one return row. *)
Definition two_row_prices : DataFrame :=
  {| columns := ["AAA"; "BBB"]%string;
     rows := [[Fin 100; Fin 50]; [Fin 110; Fin 55]] |}.

(** A solver that reports success with all weights at 0. *)
Definition zero_minimize
    (objective : list num -> option num) (x0 : list num)
    (bounds : list (num * num)) (constraint : list num -> num)
    (maxiter : Z) (ftol : Q) : option OptimizeResult :=
  Some {| success := true; x := map (fun _ => Fin 0) x0 |}.

(** The same label for two columns. *)
Definition twin_prices : DataFrame :=
  {| columns := ["AAA"; "AAA"]%string;
     rows := [[Fin 100; Fin 50]; [Fin 110; Fin 50]; [Fin 99; Fin 55];
              [Fin 110; Fin 44]] |}.

End MarkowitzMore.

(* ================================================================== *)
(** ** analysis/stats.py *)

Module Stats.
Import Markowitz.

(** A pandas series of floats: its values in index order. *)
Definition Series : Type := list num.

(** The values that are there. *)
Definition observed (values : list num) : list num :=
  filter (fun c => negb (isna c)) values.

(** The window that ends at position [i]: at most [window] values. *)
Definition window_at (window : nat) (values : list num) (i : nat) : list num :=
  skipn (i + 1 - window) (firstn (i + 1) values).

(** [series.rolling(window=window).mean()], for a window that is not
    negative: the mean of the window when it holds [window] values, none
    missing, and [NaN] otherwise. *)
Definition rolling_mean (window : nat) (values : Series) : Series :=
  map (fun i =>
         let obs := observed (window_at window values i) in
         if (window <=? List.length obs)%nat && (0 <? List.length obs)%nat
         then div (sum obs) (of_nat (List.length obs))
         else NaN)
      (seq 0 (List.length values)).

(** [None] is the [ValueError] of pandas for a negative window. *)
Definition rolling (window : Z) (values : Series) : option Series :=
  if (window <? 0)%Z then None
  else Some (rolling_mean (Z.to_nat window) values).

Definition calculate_sma (prices : Series) (period : Z) : option Series :=
  rolling period prices.

(** [series.diff()] *)
Definition diff (values : Series) : Series :=
  match values with
  | [] => []
  | _ :: rest => NaN :: map2 (fun prev cur => sub cur prev) values rest
  end.

(** [series.where(cond, 0)] for the two conditions of [calculate_rsi] *)
Definition where_positive (delta : Series) : Series :=
  map (fun d => if gtb d (Fin 0) then d else Fin 0) delta.

Definition where_negative (delta : Series) : Series :=
  map (fun d => if ltb d (Fin 0) then d else Fin 0) delta.

(** A float that may be infinite: the quotient of two series can be. *)
Inductive xnum : Type :=
| XNaN
| XInf (negative : bool)
| XFin (q : Q).

(** [gain / loss].  A division by zero gives an infinity, or [NaN] for
    0/0; the sign of a zero divisor is not modelled, the infinity takes
    the sign of the dividend. *)
Definition xdiv (a b : num) : xnum :=
  match a, b with
  | Fin x, Fin y =>
      if Qeq_bool y 0
      then if Qeq_bool x 0 then XNaN else XInf (negb (Qle_bool 0 x))
      else XFin (x / y)
  | _, _ => XNaN
  end.

(** [100 - (100 / (1 + rs))] *)
Definition rsi_of (rs : xnum) : xnum :=
  match rs with
  | XNaN => XNaN
  | XInf _ => XFin 100
  | XFin q =>
      if Qeq_bool (1 + q) 0 then XInf true
      else XFin (100 - 100 / (1 + q))
  end.

Definition calculate_rsi (prices : Series) (period : Z) : option (list xnum) :=
  let delta := diff prices in
  match rolling period (where_positive delta),
        rolling period (map neg (where_negative delta)) with
  | Some gain, Some loss => Some (map rsi_of (map2 xdiv gain loss))
  | _, _ => None
  end.

(** [series.mean()], [series.var()] and [series.std()]: over the values
    that are there, with one degree of freedom less for the variance. *)
Definition series_mean (values : Series) : num := mean values.

Definition series_var (values : Series) : num :=
  let obs := observed values in
  let count := List.length obs in
  if (Z.of_nat count - 1 <=? 0)%Z then NaN
  else
    let avg := div (sum obs) (of_nat count) in
    div (sum (map (fun v => mul (sub avg v) (sub avg v)) obs))
        (Fin (inject_Z (Z.of_nat count - 1))).

(** [a == b] on floats *)
Definition num_eqb (a b : num) : bool :=
  match a, b with Fin x, Fin y => Qeq_bool x y | _, _ => false end.

Section WithSqrt.

Variable sqrtQ : Q -> Q.

Definition series_std (values : Series) : num :=
  np_sqrt sqrtQ (series_var values).

Definition calculate_volatility (returns : Series) (annualized : bool) : num :=
  let volatility := series_std returns in
  if annualized then mul volatility (np_sqrt sqrtQ (Fin 252)) else volatility.

Definition calculate_sharpe_ratio (returns : Series) (risk_free_rate : num)
  : num :=
  if num_eqb (series_std returns) (Fin 0) then Fin 0
  else
    let excess_returns :=
      sub (mul (series_mean returns) (Fin 252)) risk_free_rate in
    let volatility := mul (series_std returns) (np_sqrt sqrtQ (Fin 252)) in
    if num_eqb volatility (Fin 0) then Fin 0
    else div excess_returns volatility.

End WithSqrt.

(** [calculate_beta].  The two series come as the rows of the frame that
    [pd.DataFrame({'asset': ..., 'market': ...})] builds over the union of
    their indexes: a pair per index label, [NaN] where a series has no
    value. *)
Definition complete (p : num * num) : bool :=
  negb (isna (fst p)) && negb (isna (snd p)).

Definition calculate_beta (frame : list (num * num)) : num :=
  let aligned := filter complete frame in
  if (List.length aligned <? 2)%nat then Fin 1
  else
    let asset := map fst aligned in
    let market := map snd aligned in
    let covariance := cov_entry asset market in
    let market_variance := series_var market in
    if num_eqb market_variance (Fin 0) then Fin 1
    else div covariance market_variance.

(** A finite value that is not negative. *)
Definition nonneg (c : num) : Prop := exists q, c = Fin q /\ 0 <= q.

(** Each value is above the one before. *)
Definition increasing (qs : list Q) : Prop :=
  forall i, (i + 1 < List.length qs)%nat -> nth i qs 0 < nth (i + 1) qs 0.

(** Sample series. *)
Definition rising : Series := [Fin 10; Fin 11; Fin 13; Fin 14; Fin 18].
Definition wavy : Series := [Fin 10; Fin 12; Fin 11; Fin 11; Fin 15; Fin 9].

Definition sample_frame : list (num * num) :=
  [(Fin (1 # 100), Fin (2 # 100)); (NaN, Fin (1 # 100));
   (Fin (3 # 100), Fin (1 # 100)); (Fin (-2 # 100), Fin (-1 # 100))].

End Stats.

(* ================================================================== *)
(** ** data/loader.py *)

Module Loader.
Import Markowitz.
Import Ascii.

(** [df.dropna(axis=1, how="all")]: the columns with at least one
    value. *)
Definition kept_columns (df : DataFrame) : list nat :=
  filter (fun j => negb (forallb isna (column j (rows df))))
         (seq 0 (List.length (columns df))).

Definition dropna_columns (df : DataFrame) : DataFrame :=
  let keep := kept_columns df in
  {| columns := map (fun j => nth j (columns df) EmptyString) keep;
     rows := map (fun r => map (fun j => nth j r NaN) keep) (rows df) |}.

(** What [yf.download] returns, as far as the code reads it: the frame
    under the key ['Close'], when there is such a key. *)
Record Download : Type := {
  Close : option DataFrame
}.

(** A call returns a frame or raises. *)
Inductive outcome : Type :=
| Returned (df : DataFrame)
| Raised.

Section WithDownload.

(** [yf.download(tickers, ...)]; [None] when it raises. *)
Variable download : list string -> option Download.

(** The body of the [try] block; [None] is an exception, which the
    [except] clause turns into an empty frame. *)
Definition try_download (tickers : list string) : option DataFrame :=
  match download tickers with
  | None => None
  | Some data =>
      match tickers with
      | [ticker] =>
          match Close data with
          | Some close =>
              (* df = data[['Close']].copy(); df.columns = [ticker] *)
              if (List.length (columns close) =? 1)%nat
              then Some {| columns := [ticker]; rows := rows close |}
              else None
          | None => None
          end
      | _ =>
          match Close data with
          | Some close =>
              let df_close := dropna_columns close in
              if empty df_close then None else Some df_close
          | None => None
          end
      end
  end.

Definition get_historical_data (tickers : list string) : outcome :=
  match tickers with
  | [] => Raised
  | _ =>
      match try_download tickers with
      | Some df => Returned df
      | None => Returned empty_frame
      end
  end.

End WithDownload.






(** A download in which the second ticker failed. *)
Definition sample_download (tickers : list string) : option Download :=
  Some {| Close := Some {| columns := tickers;
                           rows := [[Fin 100; NaN; Fin 50];
                                    [Fin 110; NaN; Fin 50];
                                    [Fin 99; NaN; NaN]] |} |}.

(** A download for one ticker. *)
Definition single_download (tickers : list string) : option Download :=
  Some {| Close := Some {| columns := ["Close"]%string;
                           rows := [[Fin 100]; [Fin 110]; [Fin 99]] |} |}.

End Loader.

(* ================================================================== *)
(** ** Facts about floats *)

Module NumFacts.

Lemma leb_true a b :
  leb a b = true <-> exists x y, a = Fin x /\ b = Fin y /\ x <= y.
Proof.
  destruct a as [|x], b as [|y]; simpl; split;
    try discriminate; try (intros (? & ? & ? & ? & _); discriminate).
  - intros H. exists x, y. rewrite Qle_bool_iff in H. auto.
  - intros (x' & y' & Hx & Hy & H). inversion Hx; inversion Hy; subst.
    now apply Qle_bool_iff.
Qed.

Lemma Qle_bool_false x y : Qle_bool x y = false <-> y < x.
Proof.
  split; intros H.
  - apply Qnot_le_lt. intros C. apply Qle_bool_iff in C. congruence.
  - destruct (Qle_bool x y) eqn:E; [|reflexivity].
    apply Qle_bool_iff in E. exfalso. eapply Qlt_not_le; eassumption.
Qed.

Lemma ltb_true a b :
  ltb a b = true <-> exists x y, a = Fin x /\ b = Fin y /\ x < y.
Proof.
  destruct a as [|x], b as [|y]; simpl; split;
    try discriminate; try (intros (? & ? & ? & ? & _); discriminate).
  - intros H. exists x, y. apply negb_true_iff, Qle_bool_false in H. auto.
  - intros (x' & y' & Hx & Hy & H). inversion Hx; inversion Hy; subst.
    now apply negb_true_iff, Qle_bool_false.
Qed.

Lemma geb_true a b :
  geb a b = true <-> exists x y, a = Fin x /\ b = Fin y /\ y <= x.
Proof.
  unfold geb. rewrite leb_true. split; intros (x & y & ? & ? & ?); eauto.
Qed.

Lemma gtb_true a b :
  gtb a b = true <-> exists x y, a = Fin x /\ b = Fin y /\ y < x.
Proof.
  unfold gtb. rewrite ltb_true. split; intros (x & y & ? & ? & ?); eauto.
Qed.

Lemma leb_NaN_r a : leb a NaN = false.
Proof. now destruct a. Qed.

Lemma ltb_NaN_r a : ltb a NaN = false.
Proof. now destruct a. Qed.

(** Python's [min] on two finite values is the minimum. *)
Lemma py_min_Fin a b :
  exists s, py_min (Fin a) (Fin b) = Fin s /\ s == Qmin a b.
Proof.
  unfold py_min. simpl. destruct (Qle_bool a b) eqn:E; simpl.
  - exists a. split; [reflexivity|]. apply Qle_bool_iff in E.
    symmetry. now apply Q.min_l.
  - exists b. split; [reflexivity|]. apply Qle_bool_false in E.
    symmetry. apply Q.min_r. now apply Qlt_le_weak.
Qed.

End NumFacts.

(* ================================================================== *)
(** ** Lists kept in order *)

Module ListFacts.

Section Sorted.
Context {A B : Type}.





End Sorted.

Lemma map_Fin_all (l : list num) :
  (forall a, In a l -> exists q, a = Fin q) -> exists qs, l = map Fin qs.
Proof.
  induction l as [|a l IH]; intros H.
  - now exists [].
  - destruct (H a (or_introl eq_refl)) as [q ->].
    destruct IH as [qs ->]; [intros; apply H; now right|].
    now exists (q :: qs).
Qed.

End ListFacts.

(* ================================================================== *)
(** ** Floats up to the representation of the rational *)

Module NumMore.

Lemma equiv_refl a : equiv a a.
Proof. destruct a; simpl; [exact I | reflexivity]. Qed.

Lemma equiv_sym a b : equiv a b -> equiv b a.
Proof. destruct a, b; simpl; auto. intros H. now symmetry. Qed.

Lemma equiv_trans a b c : equiv a b -> equiv b c -> equiv a c.
Proof.
  destruct a, b, c; simpl; auto; try contradiction.
  intros H1 H2. now rewrite H1.
Qed.

Lemma add_equiv a a' b b' : equiv a a' -> equiv b b' -> equiv (add a b) (add a' b').
Proof.
  destruct a, a', b, b'; simpl; auto; try contradiction.
  intros H1 H2. now rewrite H1, H2.
Qed.

Lemma sub_equiv a a' b b' : equiv a a' -> equiv b b' -> equiv (sub a b) (sub a' b').
Proof.
  destruct a, a', b, b'; simpl; auto; try contradiction.
  intros H1 H2. now rewrite H1, H2.
Qed.

Lemma mul_equiv a a' b b' : equiv a a' -> equiv b b' -> equiv (mul a b) (mul a' b').
Proof.
  destruct a, a', b, b'; simpl; auto; try contradiction.
  intros H1 H2. now rewrite H1, H2.
Qed.

Lemma div_equiv a a' b b' : equiv a a' -> equiv b b' -> equiv (div a b) (div a' b').
Proof.
  destruct a as [|x], a' as [|x'], b as [|y], b' as [|y']; simpl; auto;
    try contradiction.
  intros H1 H2.
  destruct (Qeq_bool y 0) eqn:E, (Qeq_bool y' 0) eqn:E'; simpl; auto.
  - apply Qeq_bool_iff in E. apply Qeq_bool_neq in E'. rewrite H2 in E. auto.
  - apply Qeq_bool_iff in E'. apply Qeq_bool_neq in E. rewrite H2 in E. auto.
  - now rewrite H1, H2.
Qed.

Lemma mul_comm a b : equiv (mul a b) (mul b a).
Proof. destruct a, b; simpl; auto. apply Qmult_comm. Qed.

Lemma fold_add_equiv l l' a a' :
  Forall2 equiv l l' -> equiv a a' ->
  equiv (fold_left add l a) (fold_left add l' a').
Proof.
  intros H. revert a a'. induction H as [|x x' l l' Hx Hl IH]; intros a a' Ha;
    simpl; [exact Ha|].
  apply IH. now apply add_equiv.
Qed.

Lemma sum_equiv l l' : Forall2 equiv l l' -> equiv (sum l) (sum l').
Proof. intros H. apply fold_add_equiv; [exact H | apply equiv_refl]. Qed.

Lemma fold_add_NaN l : fold_left add l NaN = NaN.
Proof. induction l as [|x l IH]; simpl; [reflexivity | exact IH]. Qed.

(** A finite sum has finite terms. *)
Lemma fold_add_Fin_inv l a v :
  fold_left add l a = Fin v ->
  exists qs q0, l = map Fin qs /\ a = Fin q0 /\ v = fold_left Qplus qs q0.
Proof.
  revert a. induction l as [|x l IH]; intros a H; simpl in H.
  - exists [], v. subst a. auto.
  - destruct (IH _ H) as (qs & q0 & -> & Ea & ->).
    destruct a as [|qa], x as [|qx]; simpl in Ea; try discriminate.
    inversion Ea; subst q0. exists (qx :: qs), qa. auto.
Qed.

Lemma div_NaN_r a : div a NaN = NaN.
Proof. now destruct a. Qed.

Lemma nth_map_seq_lt {A} (f : nat -> A) n i d :
  (i < n)%nat -> nth i (map f (seq 0 n)) d = f i.
Proof.
  intros H.
  rewrite (nth_indep _ d (f 0%nat)) by (now rewrite length_map, length_seq).
  rewrite map_nth, seq_nth by exact H. reflexivity.
Qed.

End NumMore.

(* ================================================================== *)
(** ** The screener *)

Module ScreenerProps.
Import Screener ScreenerSpec NumFacts ListFacts.

(** *** Cells and criteria *)

Lemma cell_isna_missing c : cell_isna c = true <-> missing c.
Proof.
  unfold missing. destruct c as [[|q]|]; simpl; split; auto;
    try discriminate; intros [H|H]; discriminate.
Qed.

Lemma cell_geb_at_least c t :
  cell_test (fun x => geb x t) c = true <-> at_least c t.
Proof.
  unfold at_least. destruct c as [x|]; cbn [cell_test].
  - rewrite geb_true. split.
    + intros (q & m & -> & -> & H). eauto.
    + intros (q & m & E & -> & H). inversion E. eauto.
  - split; [discriminate | intros (? & ? & ? & _); discriminate].
Qed.

Lemma cell_leb_at_most c t :
  cell_test (fun x => leb x t) c = true <-> at_most c t.
Proof.
  unfold at_most. destruct c as [x|]; cbn [cell_test].
  - rewrite leb_true. split.
    + intros (q & m & -> & -> & H). eauto.
    + intros (q & m & E & -> & H). inversion E. eauto.
  - split; [discriminate | intros (? & ? & ? & _); discriminate].
Qed.

Lemma cell_positive_below c t :
  cell_test (fun x => gtb x (Fin 0)) c && cell_test (fun x => ltb x t) c = true
  <-> positive_below c t.
Proof.
  unfold positive_below. destruct c as [x|]; cbn [cell_test andb].
  - rewrite andb_true_iff, gtb_true, ltb_true. split.
    + intros [(q & z & -> & Ez & H0) (q' & m & Eq & -> & H)].
      inversion Ez; inversion Eq; subst. exists q', m. auto.
    + intros (q & m & E & -> & H0 & H). inversion E. split; eauto.
  - split; [discriminate | intros (? & ? & ? & _); discriminate].
Qed.

Lemma mask_passes self row : mask self row = true <-> passes self row.
Proof.
  unfold mask, passes, roe_ok, debt_ok, margin_ok, peg_ok. cbv zeta.
  rewrite andb_true_l. do 3 rewrite andb_true_iff.
  rewrite !orb_true_iff, cell_positive_below, !cell_isna_missing,
    !cell_geb_at_least, cell_leb_at_most.
  tauto.
Qed.

(** Building the frame changes no verdict: [None] and [NaN] are both
    missing. *)
Lemma to_cell_missing o c : missing (to_cell o c) <-> missing c.
Proof.
  unfold missing. destruct c as [x|], o; simpl; split; intros [H|H];
    auto; discriminate.
Qed.

Lemma to_cell_value o c q : to_cell o c = Some (Fin q) <-> c = Some (Fin q).
Proof. destruct c as [x|], o; simpl; split; auto; discriminate. Qed.

Lemma to_row_passes self rows m : passes self (to_row rows m) <-> passes self m.
Proof.
  unfold passes, roe_ok, debt_ok, margin_ok, peg_ok, at_least, at_most,
    positive_below. simpl.
  rewrite !to_cell_missing.
  repeat (setoid_rewrite to_cell_value). tauto.
Qed.

(** *** Positions *)

Lemma take_incl {A} (l : list A) idx a : In a (take l idx) -> In a l.
Proof.
  unfold take. rewrite in_flat_map. intros (i & _ & H).
  destruct (nth_error l i) eqn:E; simpl in H; [|contradiction].
  destruct H as [<-|[]]. eapply nth_error_In; eassumption.
Qed.

Lemma head_incl {A} n (l : list A) a : In a (head n l) -> In a l.
Proof.
  assert (F : forall k, In a (firstn k l) -> In a l).
  { intros k H. rewrite <- (firstn_skipn k l). apply in_or_app. now left. }
  unfold head. destruct (0 <=? n)%Z; apply F.
Qed.

Lemma filter_stocks_scored yf_info argsort self tickers :
  filter_stocks yf_info argsort self tickers =
  head (top_n self)
       (take (scored yf_info self tickers) (ranking yf_info argsort self tickers)).
Proof.
  unfold filter_stocks, ranking, scored, retained, sort_values.
  destruct (fetched yf_info self tickers) eqn:E; [|reflexivity].
  simpl. unfold head, take, nargsort.
  assert (N : forall idx : list nat,
             flat_map (fun i => match nth_error (@nil (metrics * num)) i with
                                | Some x => [x] | None => []
                                end) idx = []).
  { induction idx as [|i idx IH]; simpl; [reflexivity|].
    destruct i; simpl; exact IH. }
  rewrite N. destruct (0 <=? top_n self)%Z; now rewrite firstn_nil.
Qed.

Lemma filter_stocks_retained yf_info argsort self tickers row :
  In row (map fst (filter_stocks yf_info argsort self tickers)) ->
  In row (retained yf_info self tickers).
Proof.
  rewrite filter_stocks_scored, in_map_iff. intros ([r s] & <- & H).
  apply head_incl, take_incl in H. unfold scored in H.
  apply in_map_iff in H. destruct H as (r' & E & H). now inversion E; subst.
Qed.


(** *** Scores *)

(** The bonus for the return on equity lies between 0 and 0.2. *)
Lemma roe_bonus q t :
  t <= q ->
  exists b, py_min (sub (Fin q) (Fin t)) (Fin (2 # 10)) = Fin b /\
            b == Qmin (q - t) (2 # 10) /\ 0 <= b /\ b <= 2 # 10.
Proof.
  intros H. destruct (py_min_Fin (q - t) (2 # 10)) as (b & Eb & Hb).
  exists b. split; [exact Eb|]. split; [exact Hb|]. rewrite Hb. split.
  - apply Q.min_glb; [lra | discriminate].
  - apply Q.le_min_r.
Qed.

Ltac use_criterion H :=
  let q := fresh "q" in
  let t := fresh "t" in
  let Ec := fresh "Ec" in
  let Et := fresh "Et" in
  destruct H as (q & t & Ec & Et & H); rewrite Ec, ?Et.

Ltac use_missing H :=
  destruct H as [H|H]; rewrite H.

Ltac decide_tests :=
  unfold geb, gtb; rewrite ?leb_NaN_r, ?ltb_NaN_r; cbn [leb ltb];
  repeat match goal with
         | H : ?a <= ?b |- context [Qle_bool ?a ?b] =>
             rewrite (proj2 (Qle_bool_iff a b) H)
         | H : ?a < ?b |- context [Qle_bool ?b ?a] =>
             rewrite (proj2 (Qle_bool_false b a) H)
         end;
  cbn [negb andb].

(** C7.  With all four metrics present and passing the score is at
    least 4.0 (and at most 4.2, the ROE bonus being capped at 0.2).  With
    exactly one metric missing and the other three passing, the score is
    exactly 3.0 when the missing metric is the ROE; when it is another one
    the score is 3.0 plus the ROE bonus [min(ROE - min_roe, 0.2)], between
    3.0 and 3.2. *)
Theorem score_row_points self row :
  (roe_ok self row -> debt_ok self row -> margin_ok self row ->
   peg_ok self row ->
   exists s, _score_row self row = Fin s /\ 4 <= s /\ s <= 42 # 10) /\
  (missing (ROE row) -> debt_ok self row -> margin_ok self row ->
   peg_ok self row ->
   exists s, _score_row self row = Fin s /\ s == 3) /\
  (forall q t,
      ROE row = Some (Fin q) -> min_roe self = Fin t -> t <= q ->
      (missing (DebtToEquity row) /\ margin_ok self row /\ peg_ok self row) \/
      (debt_ok self row /\ missing (ProfitMargin row) /\ peg_ok self row) \/
      (debt_ok self row /\ margin_ok self row /\ missing (PEG row)) ->
      exists s, _score_row self row = Fin s /\
                s == 3 + Qmin (q - t) (2 # 10) /\ 3 <= s /\ s <= 32 # 10).
Proof.
  unfold roe_ok, debt_ok, margin_ok, peg_ok, at_least, at_most, positive_below.
  split; [|split].
  - intros Hr Hd Hm Hp. unfold _score_row.
    use_criterion Hr. use_criterion Hd. use_criterion Hm. use_criterion Hp.
    destruct Hp as [Hp0 Hp]. decide_tests.
    destruct (roe_bonus q t Hr) as (b & -> & _ & B0 & B1). cbn [add].
    eexists. split; [reflexivity|]. lra.
  - intros Hr Hd Hm Hp. unfold _score_row.
    use_criterion Hd. use_criterion Hm. use_criterion Hp.
    destruct Hp as [Hp0 Hp].
    use_missing Hr; decide_tests; cbn [add];
      (eexists; split; [reflexivity|lra]).
  - intros q t Er Et Hr H. unfold _score_row. rewrite Er, Et.
    destruct (roe_bonus q t Hr) as (b & Eb & Hb & B0 & B1).
    destruct H as [(Hd & Hm & Hp) | [(Hd & Hm & Hp) | (Hd & Hm & Hp)]].
    + use_criterion Hm. use_criterion Hp. destruct Hp as [Hp0 Hp].
      use_missing Hd; decide_tests; rewrite Eb; cbn [add];
        (eexists; split; [reflexivity|]; rewrite <- Hb; lra).
    + use_criterion Hd. use_criterion Hp. destruct Hp as [Hp0 Hp].
      use_missing Hm; decide_tests; rewrite Eb; cbn [add];
        (eexists; split; [reflexivity|]; rewrite <- Hb; lra).
    + use_criterion Hd. use_criterion Hm.
      use_missing Hp; decide_tests; rewrite Eb; cbn [add];
        (eexists; split; [reflexivity|]; rewrite <- Hb; lra).
Qed.

Lemma score_row_points_witness :
  (exists s, _score_row default_screener sample_full = Fin s /\
             4 <= s /\ s <= 42 # 10) /\
  (exists s, _score_row default_screener sample_no_roe = Fin s /\ s == 3) /\
  (exists s, _score_row default_screener sample_no_peg = Fin s /\
             s == 3 + Qmin ((4 # 10) - (15 # 100)) (2 # 10) /\
             3 <= s /\ s <= 32 # 10).
Proof.
  assert (R : forall m, ROE m = Some (Fin (4 # 10)) -> roe_ok default_screener m).
  { intros m E. exists (4 # 10), (15 # 100).
    repeat split; [exact E | discriminate]. }
  assert (D : forall m, DebtToEquity m = Some (Fin (5 # 10)) ->
                        debt_ok default_screener m).
  { intros m E. exists (5 # 10), 1. repeat split; [exact E | discriminate]. }
  assert (M : forall m, ProfitMargin m = Some (Fin (2 # 10)) ->
                        margin_ok default_screener m).
  { intros m E. exists (2 # 10), (10 # 100).
    repeat split; [exact E | discriminate]. }
  assert (P : forall m, PEG m = Some (Fin 1) -> peg_ok default_screener m).
  { intros m E. exists 1, 2. repeat split; exact E. }
  split; [|split].
  - apply (proj1 (score_row_points default_screener sample_full));
      [apply R | apply D | apply M | apply P]; reflexivity.
  - apply (proj1 (proj2 (score_row_points default_screener sample_no_roe)));
      [right | apply D | apply M | apply P]; reflexivity.
  - apply (proj2 (proj2 (score_row_points default_screener sample_no_peg))
             (4 # 10) (15 # 100));
      [reflexivity | reflexivity | discriminate |].
    right. right. split; [apply D | split; [apply M | left]]; reflexivity.
Defined.

(** An asset with the PEG missing and the three other metrics passing
    scores 3.2, not 3.0. *)
Lemma score_one_missing_not_3 :
  roe_ok default_screener sample_no_peg /\
  debt_ok default_screener sample_no_peg /\
  margin_ok default_screener sample_no_peg /\
  missing (PEG sample_no_peg) /\
  ~ equiv (_score_row default_screener sample_no_peg) (Fin 3).
Proof.
  split; [|split; [|split; [|split]]].
  - exists (4 # 10), (15 # 100). repeat split. discriminate.
  - exists (5 # 10), 1. repeat split. discriminate.
  - exists (2 # 10), (10 # 100). repeat split. discriminate.
  - left. reflexivity.
  - vm_compute. discriminate.
Qed.

(** *** The sample sorts meet the contract of [argsort] *)

Section Insertion.
Variable R : nat -> nat -> Prop.
Variable P : nat -> nat -> bool.

Lemma insert_perm i l : Permutation (insert P i l) (i :: l).
Proof.
  induction l as [|j l IH]; simpl; [reflexivity|].
  destruct (P i j); [reflexivity|].
  rewrite IH. apply perm_swap.
Qed.

Lemma insert_all_perm l : Permutation (fold_right (insert P) [] l) l.
Proof.
  induction l as [|i l IH]; simpl; [reflexivity|].
  rewrite insert_perm. now constructor.
Qed.

Lemma insert_sorted i l :
  StronglySorted R l ->
  (forall j, In j l -> P i j = true -> R i j) ->
  (forall j k, In j l -> In k l -> P i j = true -> R j k -> R i k) ->
  (forall j, In j l -> P i j = false -> R j i) ->
  StronglySorted R (insert P i l).
Proof.
  induction 1 as [|j l S IH F]; intros Ht Htr Hf; simpl.
  - repeat constructor.
  - rewrite Forall_forall in F. destruct (P i j) eqn:E.
    + constructor; [now constructor; [|apply Forall_forall]|].
      constructor; [apply Ht; simpl; auto|].
      apply Forall_forall. intros k Hk.
      apply (Htr j k); simpl; auto.
    + constructor.
      * apply IH.
        -- intros; apply Ht; simpl; auto.
        -- intros k k'; intros; apply (Htr k k'); simpl; auto.
        -- intros; apply Hf; simpl; auto.
      * apply Forall_forall. intros k Hk.
        apply (Permutation_in _ (insert_perm i l)) in Hk.
        destruct Hk as [<-|Hk]; [apply Hf; simpl; auto | now apply F].
Qed.

End Insertion.

Lemma insertion_argsort_perm before keys :
  Permutation (insertion_argsort before keys) (seq 0 (List.length keys)).
Proof. apply insert_all_perm. Qed.

Lemma insertion_argsort_spec before :
  (forall a b, before a b = true -> a <= b) ->
  (forall a b, before a b = false -> b <= a) ->
  argsort_spec (insertion_argsort before).
Proof.
  intros Ht Hf keys. split; [apply insertion_argsort_perm|].
  unfold insertion_argsort.
  induction (seq 0 (List.length keys)) as [|i l IH]; simpl; [constructor|].
  apply insert_sorted; [exact IH | | |].
  - intros j _. apply Ht.
  - intros j k _ _ H1 H2. apply Ht in H1. eapply Qle_trans; eassumption.
  - intros j _. apply Hf.
Qed.

Lemma stable_argsort_spec : argsort_spec stable_argsort.
Proof.
  apply insertion_argsort_spec.
  - intros a b. apply Qle_bool_iff.
  - intros a b H. apply Qle_bool_false in H. now apply Qlt_le_weak.
Qed.

Lemma unstable_argsort_spec : argsort_spec unstable_argsort.
Proof.
  apply insertion_argsort_spec.
  - intros a b H. apply negb_true_iff, Qle_bool_false in H.
    now apply Qlt_le_weak.
  - intros a b H. apply negb_false_iff in H. now apply Qle_bool_iff.
Qed.


(** *** The ranking *)

Lemma score_row_finite self row : exists s, _score_row self row = Fin s.
Proof.
  assert (S1 : forall c t, exists s,
    match c with
    | Some roe =>
        if geb roe t
        then add (Fin 0) (add (Fin 1) (py_min (sub roe t) (Fin (2 # 10))))
        else Fin 0
    | None => Fin 0
    end = Fin s).
  { intros [roe|] t; [|eauto]. destruct (geb roe t) eqn:E; [|eauto].
    apply geb_true in E. destruct E as (x & y & -> & -> & _).
    destruct (py_min_Fin (x - y) (2 # 10)) as (b & Eb & _).
    cbn [sub]. rewrite Eb. simpl. eauto. }
  assert (S2 : forall c (test : num -> bool) s, exists s',
    match c with
    | Some v => if test v then add (Fin s) (Fin 1) else Fin s
    | None => Fin s
    end = Fin s').
  { intros [v|] test s; [|eauto]. destruct (test v); simpl; eauto. }
  unfold _score_row. cbv zeta.
  destruct (S1 (ROE row) (min_roe self)) as [s1 E1]. rewrite E1.
  destruct (S2 (DebtToEquity row)
               (fun de => leb de (max_debt_to_equity self)) s1) as [s2 E2].
  cbv beta in E2. rewrite E2.
  destruct (S2 (ProfitMargin row)
               (fun pm => geb pm (min_profit_margin self)) s2) as [s3 E3].
  cbv beta in E3. rewrite E3.
  apply (S2 (PEG row) (fun peg => ltb peg (max_peg self) && gtb peg (Fin 0))).
Qed.

Lemma non_nan_Fin qs :
  non_nan (map Fin qs) = combine (seq 0 (List.length qs)) qs.
Proof.
  unfold non_nan. rewrite length_map. generalize 0%nat as a.
  induction qs as [|q qs IH]; intros a; simpl; [reflexivity|].
  now rewrite IH.
Qed.

Lemma nan_idx_Fin qs : nan_idx (map Fin qs) = [].
Proof.
  unfold nan_idx. rewrite length_map. generalize 0%nat as a.
  induction qs as [|q qs IH]; intros a; simpl; [reflexivity|].
  now rewrite IH.
Qed.

Lemma take_map {A} (l : list A) idx d :
  (forall i, In i idx -> (i < List.length l)%nat) ->
  take l idx = map (fun i => nth i l d) idx.
Proof.
  unfold take. induction idx as [|i idx IH]; intros H; simpl; [reflexivity|].
  rewrite IH by (intros; apply H; simpl; auto).
  rewrite (nth_error_nth' l d) by (apply H; simpl; auto). reflexivity.
Qed.

Lemma nth_rev_seq n i :
  (i < n)%nat -> nth i (rev (seq 0 n)) 0%nat = (n - 1 - i)%nat.
Proof.
  intros H. rewrite rev_nth by (rewrite length_seq; exact H).
  rewrite length_seq, seq_nth by lia. lia.
Qed.


Lemma map_snd_combine_seq {A} (l : list A) a :
  map snd (combine (seq a (List.length l)) l) = l
  /\ map fst (combine (seq a (List.length l)) l) = seq a (List.length l).
Proof.
  revert a. induction l as [|x l IH]; intros a; simpl; [auto|].
  destruct (IH (S a)) as [-> ->]. auto.
Qed.

Lemma take_all {A} (l1 l2 : list A) :
  take (l1 ++ l2) (seq (List.length l1) (List.length l2)) = l2.
Proof.
  revert l1. induction l2 as [|a l2 IH]; intros l1; [reflexivity|].
  unfold take in *. simpl.
  rewrite nth_error_app2, Nat.sub_diag by lia. simpl. f_equal.
  specialize (IH (l1 ++ [a])). rewrite <- app_assoc, length_app in IH.
  simpl in IH. rewrite Nat.add_1_r in IH. exact IH.
Qed.

Lemma take_perm {A} (l : list A) idx :
  Permutation idx (seq 0 (List.length l)) -> Permutation (take l idx) l.
Proof.
  intros H. unfold take. rewrite (Permutation_flat_map _ H).
  change (Permutation (take ([] ++ l) (seq (List.length (@nil A)) (List.length l))) l).
  now rewrite take_all.
Qed.


(** The ranking of a frame whose scores are the finite values [qs]. *)
Lemma nargsort_descending argsort qs :
  argsort_spec argsort ->
  nargsort argsort (map Fin qs) false =
  rev (map (fun i => (List.length qs - 1 - i)%nat) (argsort (rev qs))).
Proof.
  intros Hs. unfold nargsort. rewrite non_nan_Fin, nan_idx_Fin, app_nil_r.
  destruct (map_snd_combine_seq qs 0) as [-> ->]. f_equal.
  destruct (Hs (rev qs)) as [Hp _]. rewrite length_rev in Hp.
  assert (Hi : forall i, In i (argsort (rev qs)) -> (i < List.length qs)%nat).
  { intros i Hi. apply (Permutation_in _ Hp), in_seq in Hi. lia. }
  rewrite (take_map _ _ 0%nat)
    by (intros i H; rewrite length_rev, length_seq; now apply Hi).
  apply map_ext_in. intros i H. apply nth_rev_seq. now apply Hi.
Qed.




Lemma scored_scores yf_info self tickers :
  exists qs, map snd (scored yf_info self tickers) = map Fin qs.
Proof.
  apply map_Fin_all. intros a Ha. unfold scored in Ha.
  rewrite map_map in Ha. apply in_map_iff in Ha.
  destruct Ha as (row & <- & _). apply score_row_finite.
Qed.

(** What the ranking is, for an [argsort] that meets its contract. *)
Lemma ranking_descending yf_info argsort self tickers :
  argsort_spec argsort ->
  exists qs,
    map snd (scored yf_info self tickers) = map Fin qs /\
    ranking yf_info argsort self tickers =
    rev (map (fun i => (List.length qs - 1 - i)%nat) (argsort (rev qs))) /\
    (forall i, In i (argsort (rev qs)) -> (i < List.length qs)%nat).
Proof.
  intros Hs. destruct (scored_scores yf_info self tickers) as [qs E].
  exists qs. split; [exact E|]. split.
  - unfold ranking. rewrite E. now apply nargsort_descending.
  - intros i Hi. destruct (Hs (rev qs)) as [Hp _]. rewrite length_rev in Hp.
    apply (Permutation_in _ Hp), in_seq in Hi. lia.
Qed.

Lemma ranking_perm yf_info argsort self tickers :
  argsort_spec argsort ->
  Permutation (ranking yf_info argsort self tickers)
              (seq 0 (List.length (scored yf_info self tickers))).
Proof.
  intros Hs.
  destruct (ranking_descending yf_info argsort self tickers Hs)
    as (qs & E & -> & Hi).
  assert (L : List.length (scored yf_info self tickers) = List.length qs).
  { rewrite <- (length_map snd), E. apply length_map. }
  rewrite L, <- Permutation_rev.
  destruct (Hs (rev qs)) as [Hp _]. rewrite length_rev in Hp.
  rewrite (Permutation_map _ Hp).
  rewrite (Permutation_rev (seq 0 (List.length qs))) at 2.
  replace (map (fun i => (List.length qs - 1 - i)%nat) (seq 0 (List.length qs)))
    with (rev (seq 0 (List.length qs))); [reflexivity|].
  apply (nth_ext _ _ 0%nat 0%nat).
  - now rewrite length_rev, length_map.
  - intros i H. rewrite length_rev, length_seq in H.
    rewrite nth_rev_seq by exact H.
    rewrite (nth_indep _ 0%nat ((fun i => (List.length qs - 1 - i)%nat) 0%nat))
      by (now rewrite length_map, length_seq).
    rewrite map_nth, seq_nth by exact H. reflexivity.
Qed.




(** The rows of the result, when the maximum count does not cut. *)
Lemma filter_stocks_all yf_info argsort self tickers row :
  argsort_spec argsort ->
  (Z.of_nat (List.length (retained yf_info self tickers)) <= top_n self)%Z ->
  In row (map fst (filter_stocks yf_info argsort self tickers)) <->
  In row (retained yf_info self tickers).
Proof.
  intros Hs Hn. rewrite filter_stocks_scored. unfold head.
  assert (H0 : (0 <=? top_n self)%Z = true) by (apply Z.leb_le; lia).
  rewrite H0.
  pose proof (take_perm _ _ (ranking_perm yf_info argsort self tickers Hs))
    as Hp.
  rewrite firstn_all2.
  - assert (E : map fst (scored yf_info self tickers)
                = retained yf_info self tickers).
    { unfold scored. rewrite map_map. apply map_id. }
    rewrite <- E. split; apply Permutation_in; apply Permutation_map;
      [exact Hp | symmetry; exact Hp].
  - rewrite (Permutation_length Hp). unfold scored. rewrite length_map. lia.
Qed.

(** C6.  A fetched candidate is kept by the mask of [filter_stocks]
    exactly when its ROE is missing or at least the minimum, its
    debt/equity missing or at most the maximum, its profit margin missing
    or at least the minimum, and its PEG missing or strictly positive and
    strictly below the maximum.  A kept candidate is in the returned frame
    whenever the maximum count does not cut (it is at least the number of
    kept rows); a candidate whose debt/equity is present and above the
    maximum is not in the returned frame, whatever its other metrics. *)
Theorem filter_stocks_retains_iff yf_info self tickers m :
  In m (fetched yf_info self tickers) ->
  let row := to_row (fetched yf_info self tickers) m in
  (In row (retained yf_info self tickers) <-> passes self m) /\
  (forall argsort,
      argsort_spec argsort ->
      (Z.of_nat (List.length (retained yf_info self tickers)) <= top_n self)%Z ->
      (In row (map fst (filter_stocks yf_info argsort self tickers))
       <-> passes self m)) /\
  (forall argsort d t,
      DebtToEquity m = Some (Fin d) -> max_debt_to_equity self = Fin t ->
      t < d ->
      ~ In row (map fst (filter_stocks yf_info argsort self tickers))).
Proof.
  intros Hm row.
  assert (K : In row (retained yf_info self tickers) <-> passes self m).
  { unfold retained. rewrite filter_In, mask_passes. unfold row.
    rewrite to_row_passes. split; [tauto|]. intros H. split; [|exact H].
    unfold DataFrame. now apply in_map. }
  split; [exact K|]. split.
  - intros argsort Hs Hn. now rewrite filter_stocks_all.
  - intros argsort d t Hd Ht Hlt Hin.
    apply filter_stocks_retained, K in Hin.
    destruct Hin as (_ & [[C|C] | (q & t' & Eq & Et & Hle)] & _);
      try congruence.
    rewrite Hd in Eq. rewrite Ht in Et. inversion Eq; inversion Et; subst.
    eapply Qlt_not_le; eassumption.
Qed.

Lemma filter_stocks_retains_iff_witness :
  let rows := fetched sample_yf default_screener sample_tickers in
  let out := filter_stocks sample_yf stable_argsort default_screener
                           sample_tickers in
  (In (to_row rows sample_full)
      (retained sample_yf default_screener sample_tickers)
   <-> passes default_screener sample_full) /\
  (In (to_row rows sample_full) (map fst out)
   <-> passes default_screener sample_full) /\
  In (to_row rows sample_full) (map fst out) /\
  (In (to_row rows sample_debt)
      (retained sample_yf default_screener sample_tickers)
   <-> passes default_screener sample_debt) /\
  ~ In (to_row rows sample_debt) (map fst out).
Proof.
  intros rows out.
  destruct (filter_stocks_retains_iff sample_yf default_screener
              sample_tickers sample_full) as (A & B & _).
  { simpl. left. reflexivity. }
  destruct (filter_stocks_retains_iff sample_yf default_screener
              sample_tickers sample_debt) as (C & _ & D).
  { simpl. right. left. reflexivity. }
  assert (B' := B stable_argsort stable_argsort_spec).
  split; [exact A|]. split; [|split; [|split]].
  - apply B'. vm_compute. discriminate.
  - apply B'; [vm_compute; discriminate|].
    apply mask_passes. reflexivity.
  - exact C.
  - apply (D stable_argsort 3 1); reflexivity.
Defined.

(** A PEG equal to the maximum, or a negative PEG, is on the right side
    of the threshold and is not kept; and with a maximum count of two, the
    third of three assets that pass is not in the returned frame. *)
Lemma peg_on_threshold_not_retained :
  fetched peg_yf default_screener peg_tickers
  = [sample_peg_at_max; sample_peg_negative] /\
  passes_stated default_screener sample_peg_at_max /\
  passes_stated default_screener sample_peg_negative /\
  retained peg_yf default_screener peg_tickers = [] /\
  filter_stocks peg_yf stable_argsort default_screener peg_tickers = [] /\
  let rows := fetched sample_yf top_two_screener passing_tickers in
  In sample_roe_unknown rows /\
  passes_stated top_two_screener sample_roe_unknown /\
  In (to_row rows sample_roe_unknown)
     (retained sample_yf top_two_screener passing_tickers) /\
  ~ In (to_row rows sample_roe_unknown)
       (map fst (filter_stocks sample_yf stable_argsort top_two_screener
                               passing_tickers)).
Proof.
  split; [reflexivity|].
  split; [|split; [|split; [reflexivity|split; [reflexivity|]]]].
  - repeat split; right; do 2 eexists;
      (split; [reflexivity|]); (split; [reflexivity|]);
      unfold Qle; simpl; lia.
  - repeat split; right; do 2 eexists;
      (split; [reflexivity|]); (split; [reflexivity|]);
      unfold Qle; simpl; lia.
  - intros rows. split; [simpl; auto|]. split; [|split].
    + split; [left; now left|].
      repeat split; right; do 2 eexists;
        (split; [reflexivity|]); (split; [reflexivity|]);
        unfold Qle; simpl; lia.
    + simpl. auto.
    + intros [H | [H | []]]; discriminate H.
Qed.




(** The contract of [argsort] alone does not fix the order of equal
    keys: an insertion sort that puts a key in front of the larger ones
    only meets it, and lists two equal keys in reverse. *)
Lemma argsort_spec_not_stable :
  argsort_spec unstable_argsort /\ ~ argsort_stable unstable_argsort.
Proof.
  split; [apply unstable_argsort_spec|]. intros H.
  specialize (H [1; 1]).
  change (unstable_argsort [1; 1]) with [1%nat; 0%nat] in H.
  apply StronglySorted_inv in H. destruct H as [_ H].
  apply Forall_inv in H. destruct H as [H | [_ H]]; [|lia].
  vm_compute in H. discriminate.
Qed.

(** *** The screener on sample data *)

(** The asset without ROE is ranked below the two complete ones and is
    still listed; the asset with too much debt is not. *)
Example ranked_sample :
  map (fun r => (Ticker (fst r), snd r))
      (filter_stocks sample_yf stable_argsort default_screener
                     ["DDD"; "CCC"; "AAA"; "BBB"; "ZZZ"]%string)
  = [("AAA", Fin (42 # 10)); ("BBB", Fin (42 # 10)); ("DDD", Fin 3)]%string.
Proof. reflexivity. Qed.

Example ranked_sample_top_2 :
  map (fun r => Ticker (fst r))
      (filter_stocks sample_yf stable_argsort top_two_screener
         ["DDD"; "CCC"; "AAA"; "BBB"; "ZZZ"]%string)
  = ["AAA"; "BBB"]%string.
Proof. reflexivity. Qed.

Example nothing_fetched :
  filter_stocks sample_yf stable_argsort default_screener ["ZZZ"]%string = [].
Proof. reflexivity. Qed.

End ScreenerProps.

(* ================================================================== *)
(** ** The optimizer *)

Module MarkowitzProps.
Import Markowitz MarkowitzSpec MarkowitzMore NumFacts NumMore ListFacts.

(** *** Sums *)

Lemma fold_add_Fin qs a :
  fold_left add (map Fin qs) (Fin a) = Fin (fold_left Qplus qs a).
Proof.
  revert a. induction qs as [|q qs IH]; intros a; simpl; [reflexivity|].
  apply IH.
Qed.

Lemma sum_Fin qs : sum (map Fin qs) = Fin (Qsum qs).
Proof. apply fold_add_Fin. Qed.

Lemma fold_Qplus_acc qs a : fold_left Qplus qs a == a + Qsum qs.
Proof.
  unfold Qsum. revert a. induction qs as [|q qs IH]; intros a; simpl.
  - lra.
  - rewrite (IH (a + q)), (IH (0 + q)). lra.
Qed.

Lemma Qsum_cons q qs : Qsum (q :: qs) == q + Qsum qs.
Proof. unfold Qsum at 1. simpl. rewrite fold_Qplus_acc. lra. Qed.

Lemma Qsum_nonneg qs : Forall (fun q => 0 <= q) qs -> 0 <= Qsum qs.
Proof.
  induction 1 as [|q qs H F IH]; [discriminate|].
  rewrite Qsum_cons. lra.
Qed.

Lemma Qsum_In_le q qs : Forall (fun q => 0 <= q) qs -> In q qs -> q <= Qsum qs.
Proof.
  induction 1 as [|p qs H F IH]; intros Hin; [contradiction|].
  rewrite Qsum_cons. pose proof (Qsum_nonneg qs F).
  destruct Hin as [->|Hin]; [lra|]. specialize (IH Hin). lra.
Qed.

Lemma Qsum_map_div qs s : Qsum (map (fun c => c / s) qs) == Qsum qs / s.
Proof.
  induction qs as [|q qs IH]; simpl.
  - unfold Qsum. simpl. unfold Qdiv. lra.
  - rewrite !Qsum_cons, IH. unfold Qdiv. lra.
Qed.

Lemma Qsum_repeat c n : Qsum (repeat c n) == inject_Z (Z.of_nat n) * c.
Proof.
  induction n as [|n IH].
  - unfold Qsum. simpl. change (inject_Z 0) with 0. lra.
  - cbn [repeat]. rewrite Qsum_cons, IH, Nat2Z.inj_succ. unfold Z.succ.
    rewrite inject_Z_plus. change (inject_Z 1) with 1. lra.
Qed.


(** *** Dictionaries *)

Lemma dict_set_In d k0 v0 k v :
  In (k, v) (dict_set d k0 v0) -> (k, v) = (k0, v0) \/ In (k, v) d.
Proof.
  induction d as [|[k' v'] d IH]; simpl.
  - intros [H|[]]; auto.
  - destruct (String.eqb k0 k'); simpl; intros [H|H]; auto.
    destruct (IH H); auto.
Qed.

Lemma dict_set_keys d k0 v0 k :
  In k (map fst (dict_set d k0 v0)) <-> k = k0 \/ In k (map fst d).
Proof.
  induction d as [|[k' v'] d IH]; simpl.
  - intuition.
  - destruct (String.eqb_spec k0 k') as [->|N]; simpl; [intuition|].
    rewrite IH. intuition.
Qed.

Lemma dict_set_fresh d k v :
  ~ In k (map fst d) -> dict_set d k v = d ++ [(k, v)].
Proof.
  induction d as [|[k' v'] d IH]; simpl; intros H; [reflexivity|].
  destruct (String.eqb_spec k k') as [->|N]; [tauto|].
  rewrite IH; tauto.
Qed.

Lemma fold_dict_set_In items d k v :
  In (k, v) (fold_left (fun d kv => dict_set d (fst kv) (snd kv)) items d) ->
  In (k, v) items \/ In (k, v) d.
Proof.
  revert d. induction items as [|[k0 v0] items IH]; intros d; simpl; [auto|].
  intros H. apply IH in H. destruct H as [H|H]; [auto|].
  apply dict_set_In in H. destruct H as [H|H]; auto.
Qed.

Lemma fold_dict_set_keys items d k :
  In k (map fst (fold_left (fun d kv => dict_set d (fst kv) (snd kv)) items d))
  <-> In k (map fst items) \/ In k (map fst d).
Proof.
  revert d. induction items as [|[k0 v0] items IH]; intros d; simpl;
    [intuition|].
  rewrite IH, dict_set_keys. intuition.
Qed.

Lemma fold_dict_set_fresh items d :
  NoDup (map fst items) ->
  (forall k, In k (map fst items) -> ~ In k (map fst d)) ->
  fold_left (fun d kv => dict_set d (fst kv) (snd kv)) items d = d ++ items.
Proof.
  revert d. induction items as [|[k0 v0] items IH]; intros d Hn Hd; simpl.
  - now rewrite app_nil_r.
  - inversion Hn as [|? ? Hk Hn']; subst.
    rewrite dict_set_fresh by (apply Hd; simpl; auto).
    rewrite IH; [now rewrite <- app_assoc | exact Hn' |].
    intros k Hin. rewrite map_app, in_app_iff. simpl.
    intros [H|[<-|[]]]; [|contradiction].
    apply (Hd k); simpl; auto.
Qed.

Lemma map_fst_combine {A B} (l : list A) (l' : list B) :
  List.length l = List.length l' -> map fst (combine l l') = l.
Proof.
  revert l'. induction l as [|a l IH]; intros [|b l'] H; simpl in *;
    try discriminate; [reflexivity|]. f_equal. apply IH. lia.
Qed.

Lemma map_snd_combine {A B} (l : list A) (l' : list B) :
  List.length l = List.length l' -> map snd (combine l l') = l'.
Proof.
  revert l'. induction l as [|a l IH]; intros [|b l'] H; simpl in *;
    try discriminate; [reflexivity|]. f_equal. apply IH. lia.
Qed.

(** With distinct keys the dictionary lists the pairs as they come. *)
Lemma dict_zip_distinct keys vals :
  NoDup keys -> List.length keys = List.length vals ->
  dict_zip keys vals = combine keys vals.
Proof.
  intros Hn Hl. unfold dict_zip.
  rewrite fold_dict_set_fresh; [reflexivity | | intros k _ []].
  now rewrite map_fst_combine.
Qed.

(** *** Weights *)

Lemma of_nat_nonzero n : (0 < n)%nat -> Qeq_bool (inject_Z (Z.of_nat n)) 0 = false.
Proof.
  intros H. destruct (Qeq_bool _ _) eqn:E; [|reflexivity].
  apply Qeq_bool_iff in E. unfold Qeq in E. simpl in E. lia.
Qed.

Lemma equal_weight_repeat n :
  (0 < n)%nat ->
  equal_weight n = repeat (Fin (1 / inject_Z (Z.of_nat n))) n.
Proof.
  intros H. unfold equal_weight. rewrite map_repeat. f_equal.
  unfold div, of_nat. now rewrite of_nat_nonzero.
Qed.

Lemma clip_Fin qs : clip (map Fin qs) = map Fin (map clipQ qs).
Proof. unfold clip. rewrite !map_map. reflexivity. Qed.

Lemma clipQ_bounds q : 0 <= clipQ q /\ q <= clipQ q.
Proof.
  unfold clipQ. destruct (Qle_bool q 0) eqn:E.
  - apply Qle_bool_iff in E. lra.
  - apply Qle_bool_false in E. lra.
Qed.

Lemma Qsum_clip_le qs : Qsum qs <= Qsum (map clipQ qs).
Proof.
  induction qs as [|q qs IH]; simpl; [apply Qle_refl|].
  rewrite !Qsum_cons. pose proof (clipQ_bounds q). lra.
Qed.

Lemma clip_nonneg qs : Forall (fun q => 0 <= q) (map clipQ qs).
Proof.
  apply Forall_forall. intros c Hc. apply in_map_iff in Hc.
  destruct Hc as (q & <- & _). apply clipQ_bounds.
Qed.

Lemma feasible_clipped_sum tol qs :
  tol < 1 -> Qabs (Qsum qs - 1) <= tol -> 0 < Qsum (map clipQ qs).
Proof.
  intros Ht H. apply Qabs_Qle_condition in H.
  pose proof (Qsum_clip_le qs). lra.
Qed.

Lemma renormalize_Fin qs :
  0 < Qsum (map clipQ qs) ->
  renormalize (map Fin qs) =
  map Fin (map (fun c => c / Qsum (map clipQ qs)) (map clipQ qs)).
Proof.
  intros H. unfold renormalize. rewrite clip_Fin, sum_Fin, !map_map.
  apply map_ext. intros q. unfold div.
  destruct (Qeq_bool (Qsum (map clipQ qs)) 0) eqn:E; [|reflexivity].
  apply Qeq_bool_iff in E. lra.
Qed.


Lemma repeat_Fin c n : repeat (Fin c) n = map Fin (repeat c n).
Proof. now rewrite map_repeat. Qed.

Lemma inverse_in_unit_interval n :
  (0 < n)%nat ->
  0 <= 1 / inject_Z (Z.of_nat n) /\ 1 / inject_Z (Z.of_nat n) <= 1.
Proof.
  intros H.
  assert (P : 1 <= inject_Z (Z.of_nat n)).
  { change 1 with (inject_Z 1). rewrite <- Zle_Qle. lia. }
  split.
  - apply Qle_shift_div_l; lra.
  - apply Qle_shift_div_r; lra.
Qed.

Lemma equal_weight_valid n :
  (0 < n)%nat ->
  sums_to_one (equal_weight n) /\ Forall in_unit_interval (equal_weight n).
Proof.
  intros H. rewrite (equal_weight_repeat n H). split.
  - exists (Qsum (repeat (1 / inject_Z (Z.of_nat n)) n)).
    split; [now rewrite repeat_Fin, sum_Fin|].
    rewrite Qsum_repeat.
    assert (P : 1 <= inject_Z (Z.of_nat n)).
    { change 1 with (inject_Z 1). rewrite <- Zle_Qle. lia. }
    assert (E : inject_Z (Z.of_nat n) * (1 / inject_Z (Z.of_nat n)) - 1 == 0).
    { field. lra. }
    rewrite E. discriminate.
  - apply Forall_forall. intros w Hw. apply repeat_spec in Hw. subst w.
    eexists. split; [reflexivity|]. now apply inverse_in_unit_interval.
Qed.

Lemma renormalize_valid tol n x :
  tol < 1 -> feasible tol n x ->
  List.length (renormalize x) = n /\
  sums_to_one (renormalize x) /\ Forall in_unit_interval (renormalize x).
Proof.
  intros Ht (qs & -> & Hlen & _ & Hsum).
  pose proof (feasible_clipped_sum tol qs Ht Hsum) as Hpos.
  rewrite (renormalize_Fin qs Hpos). split; [|split].
  - now rewrite !length_map.
  - eexists. split; [apply sum_Fin|].
    rewrite Qsum_map_div.
    assert (E : Qsum (map clipQ qs) / Qsum (map clipQ qs) - 1 == 0).
    { field. lra. }
    rewrite E. discriminate.
  - apply Forall_forall. intros w Hw.
    apply in_map_iff in Hw. destruct Hw as (r & <- & Hr).
    apply in_map_iff in Hr. destruct Hr as (c & <- & Hc).
    eexists. split; [reflexivity|].
    pose proof (clip_nonneg qs) as Hnn.
    pose proof (Qsum_In_le c _ Hnn Hc) as Hle.
    rewrite Forall_forall in Hnn. specialize (Hnn c Hc). split.
    + apply Qle_shift_div_l; lra.
    + apply Qle_shift_div_r; lra.
Qed.

Lemma equal_weight_length n : List.length (equal_weight n) = n.
Proof. unfold equal_weight. now rewrite length_map, repeat_length. Qed.

Lemma nonempty_columns df : empty df = false -> (0 < List.length (columns df))%nat.
Proof.
  unfold empty. destruct (columns df); [discriminate|]. simpl. lia.
Qed.

(** The weights of any optimizer state with distinct column labels. *)
Lemma optimize_valid sqrtQ minimize self result tol :
  NoDup (columns (_returns self)) ->
  empty (_returns self) = false -> size (_cov_matrix self) <> 0%nat ->
  solve sqrtQ minimize self = Some result ->
  tol < 1 ->
  (success result = true ->
   feasible tol (List.length (columns (_returns self))) (x result)) ->
  exists w, optimize_sharpe_ratio sqrtQ minimize self = Some w /\
            w <> [] /\ sums_to_one (values w) /\
            Forall in_unit_interval (values w).
Proof.
  intros Hn He Hs Hsolve Ht Hfeas. unfold optimize_sharpe_ratio.
  apply Nat.eqb_neq in Hs. rewrite He, Hs, Hsolve. cbn [orb].
  pose proof (nonempty_columns _ He) as Hpos.
  set (n := List.length (columns (_returns self))) in *.
  set (weights := if negb (success result) then equal_weight n
                  else renormalize (x result)).
  assert (W : List.length weights = n /\ sums_to_one weights
              /\ Forall in_unit_interval weights).
  { unfold weights. destruct (success result); simpl.
    - apply (renormalize_valid tol); auto.
    - split; [apply equal_weight_length | now apply equal_weight_valid]. }
  destruct W as (Wl & Ws & Wu).
  exists (dict_zip (columns (_returns self)) weights).
  split; [reflexivity|].
  rewrite dict_zip_distinct by (auto; now rewrite Wl).
  unfold values. rewrite map_snd_combine by now rewrite Wl.
  split; [|auto].
  clearbody weights. subst n.
  destruct (columns (_returns self)) as [|k ks]; [simpl in Hpos; lia|].
  destruct weights; discriminate.
Qed.


(** C10.  On the converged path, a solver result that meets the bounds
    and the budget constraint up to a tolerance below 1 has a strictly
    positive sum after its negative entries are clipped to 0, so that the
    renormalization divides by a non-zero number and yields no undefined
    weight. *)
Theorem clipped_sum_positive tol n x :
  tol < 1 -> feasible tol n x ->
  exists s, sum (clip x) = Fin s /\ 0 < s /\
            Forall (fun w => exists q, w = Fin q) (renormalize x).
Proof.
  intros Ht (qs & -> & _ & _ & Hsum).
  pose proof (feasible_clipped_sum tol qs Ht Hsum) as Hpos.
  exists (Qsum (map clipQ qs)).
  split; [now rewrite clip_Fin, sum_Fin|]. split; [exact Hpos|].
  rewrite (renormalize_Fin qs Hpos). apply Forall_forall.
  intros w Hw. apply in_map_iff in Hw. destruct Hw as (q & <- & _). eauto.
Qed.

Lemma sample_result_feasible :
  feasible (1 # 1000000000) 2
           [Fin (1 + (1 # 1000000000)); Fin (- (1 # 1000000000))].
Proof.
  exists [1 + (1 # 1000000000); - (1 # 1000000000)].
  split; [reflexivity|]. split; [reflexivity|]. split.
  - repeat constructor; discriminate.
  - discriminate.
Qed.

Lemma clipped_sum_positive_witness :
  exists s,
    sum (clip [Fin (1 + (1 # 1000000000)); Fin (- (1 # 1000000000))]) = Fin s /\
    0 < s /\
    Forall (fun w => exists q, w = Fin q)
           (renormalize [Fin (1 + (1 # 1000000000)); Fin (- (1 # 1000000000))]).
Proof.
  apply (clipped_sum_positive (1 # 1000000000) 2);
    [reflexivity | apply sample_result_feasible].
Defined.

(** C1.  For a price matrix with distinct column labels that leaves a
    non-empty return matrix and a covariance matrix of non-zero size, and
    a solver run that returns and, when it reports success, meets the
    bounds and the budget constraint up to a tolerance below 1,
    [optimize_sharpe_ratio] returns a non-empty mapping whose values sum
    to 1 within 1e-6 and lie in $[0, 1]$, on the converged path and on the
    fallback path. *)
Theorem optimize_weights_valid pad sqrtQ minimize self prices result tol :
  NoDup (columns prices) ->
  let st := set_prices pad self prices in
  empty (_returns st) = false -> size (_cov_matrix st) <> 0%nat ->
  solve sqrtQ minimize st = Some result ->
  tol < 1 ->
  (success result = true ->
   feasible tol (List.length (columns prices)) (x result)) ->
  exists w, optimize_sharpe_ratio sqrtQ minimize st = Some w /\
            w <> [] /\ sums_to_one (values w) /\
            Forall in_unit_interval (values w).
Proof.
  intros Hn st He Hs Hsolve Ht Hfeas.
  apply (optimize_valid sqrtQ minimize st result tol); auto.
Qed.

Lemma optimize_weights_valid_witness :
  (exists w,
      optimize_sharpe_ratio sample_sqrt sample_minimize
        (set_prices true sample_optimizer sample_prices) = Some w /\
      w <> [] /\ sums_to_one (values w) /\ Forall in_unit_interval (values w))
  /\
  (exists w,
      optimize_sharpe_ratio sample_sqrt failing_minimize
        (set_prices false sample_optimizer sample_prices) = Some w /\
      w <> [] /\ sums_to_one (values w) /\ Forall in_unit_interval (values w)).
Proof.
  assert (N : NoDup (columns sample_prices))
    by (repeat constructor; simpl; intuition discriminate).
  split.
  - apply (optimize_weights_valid true sample_sqrt sample_minimize
             sample_optimizer sample_prices
             {| success := true;
                x := [Fin (1 + (1 # 1000000000)); Fin (- (1 # 1000000000))] |}
             (1 # 1000000000) N).
    + reflexivity.
    + vm_compute. discriminate.
    + reflexivity.
    + reflexivity.
    + intros _. apply sample_result_feasible.
  - apply (optimize_weights_valid false sample_sqrt failing_minimize
             sample_optimizer sample_prices
             {| success := false; x := equal_weight 2 |}
             (1 # 1000000000) N).
    + reflexivity.
    + vm_compute. discriminate.
    + reflexivity.
    + reflexivity.
    + discriminate.
Defined.

(** C4.  When the solver reports failure, [optimize_sharpe_ratio] maps
    each of the N assets to exactly 1/N, and nothing else. *)
Theorem fallback_equal_weight sqrtQ minimize self result :
  empty (_returns self) = false -> size (_cov_matrix self) <> 0%nat ->
  solve sqrtQ minimize self = Some result -> success result = false ->
  let tickers := columns (_returns self) in
  let n := List.length tickers in
  exists w, optimize_sharpe_ratio sqrtQ minimize self = Some w /\
            forall k v, In (k, v) w <->
                        In k tickers /\ v = Fin (1 / inject_Z (Z.of_nat n)).
Proof.
  intros He Hs Hsolve Hfail tickers n. unfold optimize_sharpe_ratio.
  apply Nat.eqb_neq in Hs. rewrite He, Hs, Hsolve, Hfail. cbn [orb negb].
  fold tickers. fold n.
  pose proof (nonempty_columns _ He) as Hpos. fold tickers in Hpos. fold n in Hpos.
  eexists. split; [reflexivity|].
  rewrite (equal_weight_repeat n Hpos).
  assert (F : forall k v,
             In (k, v) (dict_zip tickers
                          (repeat (Fin (1 / inject_Z (Z.of_nat n))) n)) ->
             In k tickers /\ v = Fin (1 / inject_Z (Z.of_nat n))).
  { intros k v H. apply fold_dict_set_In in H. destruct H as [H|[]].
    split; [eapply in_combine_l; eassumption|].
    apply in_combine_r, repeat_spec in H. exact H. }
  intros k v. split; [apply F|]. intros [Hk ->].
  assert (K : In k (map fst (dict_zip tickers
                               (repeat (Fin (1 / inject_Z (Z.of_nat n))) n)))).
  { apply fold_dict_set_keys. left.
    rewrite map_fst_combine; [exact Hk | now rewrite repeat_length]. }
  apply in_map_iff in K. destruct K as ([k' v'] & E & K). simpl in E. subst k'.
  destruct (F k v' K) as [_ ->]. exact K.
Qed.

Lemma fallback_equal_weight_witness :
  exists w,
    optimize_sharpe_ratio sample_sqrt failing_minimize
      (set_prices true sample_optimizer sample_prices) = Some w /\
    forall k v, In (k, v) w <->
                In k ["AAA"; "BBB"]%string /\ v = Fin (1 / inject_Z (Z.of_nat 2)).
Proof.
  apply (fallback_equal_weight sample_sqrt failing_minimize
           (set_prices true sample_optimizer sample_prices)
           {| success := false; x := equal_weight 2 |}).
  - reflexivity.
  - vm_compute. discriminate.
  - reflexivity.
  - reflexivity.
Defined.


(** *** The objective *)

Lemma dot_defined a b :
  List.length a = List.length b -> exists r, dot a b = Some r.
Proof.
  revert b. induction a as [|x a IH]; intros [|y b] H; simpl in *;
    try discriminate; [eauto|].
  destruct (IH b) as [r ->]; [lia | eauto].
Qed.

Lemma dot_length a b r : dot a b = Some r -> List.length a = List.length b.
Proof.
  revert b r. induction a as [|x a IH]; intros [|y b] r H; simpl in *;
    try discriminate; [reflexivity|].
  destruct (dot a b) as [r'|] eqn:E; [|discriminate].
  f_equal. eapply IH. eassumption.
Qed.

Lemma matvec_defined m v :
  Forall (fun r => List.length r = List.length v) m ->
  exists cw, matvec m v = Some cw /\ List.length cw = List.length m.
Proof.
  induction 1 as [|r m Hr F IH]; simpl; [eauto|].
  destruct (dot_defined r v Hr) as [d ->].
  destruct IH as (cw & -> & L). exists (d :: cw). simpl. auto.
Qed.

Lemma map2_cons {A B C} (f : A -> B -> C) a l b l' :
  map2 f (a :: l) (b :: l') = f a b :: map2 f l l'.
Proof. reflexivity. Qed.

Lemma add_zero_l a : equiv (add (Fin 0) a) a.
Proof. destruct a; simpl; [exact I | ring]. Qed.

Lemma add_zero_r a : equiv (add a (Fin 0)) a.
Proof. destruct a; simpl; [exact I | ring]. Qed.

Lemma add_assoc a b c : equiv (add (add a b) c) (add a (add b c)).
Proof. destruct a, b, c; simpl; auto. ring. Qed.

Lemma fold_add_acc l a : equiv (fold_left add l a) (add a (sum l)).
Proof.
  unfold sum. revert a. induction l as [|x l IH]; intros a; simpl.
  - apply equiv_sym, add_zero_r.
  - eapply equiv_trans; [apply IH|].
    eapply equiv_trans; [apply add_assoc|].
    apply add_equiv; [apply equiv_refl|].
    apply equiv_sym. eapply equiv_trans; [apply IH|].
    apply add_equiv; [apply add_zero_l | apply equiv_refl].
Qed.

Lemma sum_cons x l : equiv (sum (x :: l)) (add x (sum l)).
Proof.
  unfold sum at 1. simpl. eapply equiv_trans; [apply fold_add_acc|].
  apply add_equiv; [apply add_zero_l | apply equiv_refl].
Qed.

(** [np.dot] of two vectors is the sum of the products. *)
Lemma dot_weighted_sum a b r :
  dot a b = Some r -> equiv r (weighted_sum a b).
Proof.
  revert b r. induction a as [|x a IH]; intros [|y b] r H; simpl in H;
    try discriminate.
  - inversion H. reflexivity.
  - destruct (dot a b) as [r'|] eqn:E; [|discriminate]. inversion H.
    unfold weighted_sum. rewrite map2_cons.
    apply equiv_sym. eapply equiv_trans; [apply sum_cons|].
    apply add_equiv; [apply equiv_refl|]. apply equiv_sym. now apply IH.
Qed.

Lemma matvec_weighted_sum m v cw :
  matvec m v = Some cw ->
  Forall2 equiv cw (map (fun row => weighted_sum row v) m).
Proof.
  revert cw. induction m as [|r m IH]; intros cw H; simpl in H.
  - inversion H. constructor.
  - destruct (dot r v) as [d|] eqn:Ed; [|discriminate].
    destruct (matvec m v) as [rest|] eqn:Em; [|discriminate].
    inversion H. simpl. constructor; [now apply dot_weighted_sum | now apply IH].
Qed.

Lemma weighted_sum_equiv a b b' :
  Forall2 equiv b b' -> equiv (weighted_sum a b) (weighted_sum a b').
Proof.
  intros H. apply sum_equiv. revert a.
  induction H as [|y y' b b' Hy Hb IH]; intros [|x a]; try constructor.
  - apply mul_equiv; [apply equiv_refl | exact Hy].
  - apply IH.
Qed.

(** The quadratic form of the code is the one of the specification. *)
Lemma variance_quadratic_form self weights var :
  variance self weights = Some var ->
  equiv var (quadratic_form (_cov_matrix self) weights).
Proof.
  unfold variance, quadratic_form. intros H.
  destruct (matvec (_cov_matrix self) weights) as [cw|] eqn:E; [|discriminate].
  eapply equiv_trans; [exact (dot_weighted_sum _ _ _ H)|].
  apply weighted_sum_equiv. exact (matvec_weighted_sum _ _ _ E).
Qed.

(** The square root is undefined exactly on [NaN] and on the negative
    numbers. *)
Lemma np_sqrt_NaN sqrtQ var :
  np_sqrt sqrtQ var = NaN <-> var = NaN \/ exists q, var = Fin q /\ q < 0.
Proof.
  unfold np_sqrt. destruct var as [|q]; [tauto|].
  destruct (Qle_bool 0 q) eqn:E; split.
  - discriminate.
  - intros [C | (q' & Eq & Hq)]; [discriminate|]. inversion Eq; subst q'.
    apply Qle_bool_iff in E. lra.
  - intros _. right. exists q. split; [reflexivity|].
    now apply Qle_bool_false.
  - reflexivity.
Qed.

(** C2.  For a weight vector with one weight per asset, the objective
    reads the portfolio return [sum_i w_i * mean_i] and the quadratic form
    [w . (cov . w)], whose square root is the volatility.  It is 0 when
    the volatility is at most 0; it is
    [-(return - risk_free_rate) / volatility] when the volatility is a
    positive number, which is a number whenever the return and the rate
    are; and it is [NaN] when the volatility is [NaN], which is the case
    exactly when the quadratic form is [NaN] or negative. *)
Theorem negative_sharpe_value sqrtQ self weights :
  weights <> [] ->
  List.length (_mean_returns self) = List.length weights ->
  List.length (_cov_matrix self) = List.length weights ->
  Forall (fun r => List.length r = List.length weights) (_cov_matrix self) ->
  exists port_return var,
    equiv port_return (weighted_sum weights (_mean_returns self)) /\
    equiv var (quadratic_form (_cov_matrix self) weights) /\
    let port_vol := np_sqrt sqrtQ var in
    (leb port_vol (Fin 0) = true ->
     _negative_sharpe sqrtQ self weights = Some (Fin 0)) /\
    (forall v,
        port_vol = Fin v -> 0 < v ->
        _negative_sharpe sqrtQ self weights =
        Some (neg (div (sub port_return (risk_free_rate self)) (Fin v))) /\
        forall e,
          sub port_return (risk_free_rate self) = Fin e ->
          _negative_sharpe sqrtQ self weights = Some (Fin (- (e / v)))) /\
    (port_vol = NaN -> _negative_sharpe sqrtQ self weights = Some NaN) /\
    (port_vol = NaN <-> var = NaN \/ exists q, var = Fin q /\ q < 0).
Proof.
  intros _ Lm Lc Wc.
  destruct (dot_defined weights (_mean_returns self)) as [r Hr];
    [congruence|].
  destruct (matvec_defined (_cov_matrix self) weights Wc) as (cw & Hcw & Lw).
  destruct (dot_defined weights cw) as [var Hv]; [congruence|].
  assert (Hvar : variance self weights = Some var)
    by (unfold variance; now rewrite Hcw).
  exists r, var.
  split; [now apply dot_weighted_sum|].
  split; [now apply variance_quadratic_form|].
  cbv zeta. unfold _negative_sharpe. rewrite Hr, Hvar. cbv zeta.
  split; [|split; [|split]].
  - intros H. now rewrite H.
  - intros v Ev Hpos. rewrite Ev.
    assert (L : leb (Fin v) (Fin 0) = false)
      by (simpl; now apply Qle_bool_false).
    rewrite L. split; [reflexivity|]. intros e Ee. rewrite Ee.
    unfold div.
    assert (N : Qeq_bool v 0 = false).
    { apply not_true_iff_false. intros C. apply Qeq_bool_iff in C. lra. }
    now rewrite N.
  - intros E. rewrite E. cbn [leb]. now rewrite div_NaN_r.
  - apply np_sqrt_NaN.
Qed.

Lemma negative_sharpe_value_witness :
  let self := set_prices true sample_optimizer sample_prices in
  let weights := [Fin (1 # 2); Fin (1 # 2)] in
  exists port_return var,
    equiv port_return (weighted_sum weights (_mean_returns self)) /\
    equiv var (quadratic_form (_cov_matrix self) weights) /\
    let port_vol := np_sqrt sample_sqrt var in
    (leb port_vol (Fin 0) = true ->
     _negative_sharpe sample_sqrt self weights = Some (Fin 0)) /\
    (forall v,
        port_vol = Fin v -> 0 < v ->
        _negative_sharpe sample_sqrt self weights =
        Some (neg (div (sub port_return (risk_free_rate self)) (Fin v))) /\
        forall e,
          sub port_return (risk_free_rate self) = Fin e ->
          _negative_sharpe sample_sqrt self weights = Some (Fin (- (e / v)))) /\
    (port_vol = NaN -> _negative_sharpe sample_sqrt self weights = Some NaN) /\
    (port_vol = NaN <-> var = NaN \/ exists q, var = Fin q /\ q < 0).
Proof.
  intros self weights.
  apply (negative_sharpe_value sample_sqrt self weights).
  - discriminate.
  - reflexivity.
  - reflexivity.
  - repeat constructor.
Defined.

(** Two price rows leave one return row: the sample covariance divides
    by zero observations less one, the quadratic form is [NaN] for every
    weight vector, the guard [port_vol <= 0] is false and the objective is
    [NaN]; the solver is called on this state. *)
Lemma objective_nan_on_one_return_row :
  let self := set_prices true sample_optimizer two_row_prices in
  let weights := [Fin (1 # 2); Fin (1 # 2)] in
  well_formed two_row_prices /\
  empty (_returns self) = false /\ size (_cov_matrix self) = 4%nat /\
  variance self weights = Some NaN /\
  _negative_sharpe sample_sqrt self weights = Some NaN /\
  _negative_sharpe sample_sqrt
    (set_prices false sample_optimizer two_row_prices) weights = Some NaN.
Proof.
  split; [repeat constructor|]. repeat split; reflexivity.
Qed.

(** *** Degenerate states *)

Lemma map2_nil_r {A B C} (f : A -> B -> C) l : map2 f l [] = [].
Proof. unfold map2. now rewrite combine_nil. Qed.

Lemma ffill_length_le_1 data :
  (List.length data <= 1)%nat -> ffill data = data.
Proof.
  destruct data as [|r [|r' data]]; simpl; intros H; try reflexivity. lia.
Qed.

Lemma change_NaN c : change NaN c = NaN.
Proof. unfold change, div. now destruct c. Qed.

(** At most one price row leaves no return row. *)
Lemma one_row_no_returns pad prices :
  (List.length (rows (dropna_all prices)) <= 1)%nat ->
  rows (dropna (pct_change pad (dropna_all prices))) = [].
Proof.
  intros H. unfold dropna, pct_change. cbn [rows].
  assert (E : (if pad then ffill (rows (dropna_all prices))
               else rows (dropna_all prices)) = rows (dropna_all prices)).
  { destruct pad; [now apply ffill_length_le_1 | reflexivity]. }
  rewrite E. clear E.
  destruct (rows (dropna_all prices)) as [|r [|r' data]] eqn:Er;
    [reflexivity | | simpl in H; lia].
  assert (Hr : In r (rows (dropna_all prices))) by (rewrite Er; now left).
  unfold dropna_all in Hr. cbn [rows] in Hr. apply filter_In in Hr.
  destruct Hr as [_ Hr]. destruct r as [|c r]; [discriminate|].
  unfold map2. simpl. now rewrite change_NaN.
Qed.

(** C3.  A state whose return matrix is empty or whose covariance matrix
    has size zero makes [optimize_sharpe_ratio] return the empty mapping,
    without an exception; so does every price matrix that has at most one
    row left after cleaning. *)
Theorem optimize_degenerate pad sqrtQ minimize self :
  (empty (_returns self) = true \/ size (_cov_matrix self) = 0%nat ->
   optimize_sharpe_ratio sqrtQ minimize self = Some []) /\
  (forall prices,
      (List.length (rows (dropna_all prices)) <= 1)%nat ->
      optimize_sharpe_ratio sqrtQ minimize (set_prices pad self prices)
      = Some []).
Proof.
  assert (G : forall st,
             empty (_returns st) = true \/ size (_cov_matrix st) = 0%nat ->
             optimize_sharpe_ratio sqrtQ minimize st = Some []).
  { intros st H. unfold optimize_sharpe_ratio.
    destruct H as [-> | ->]; [reflexivity|]. now rewrite orb_true_r. }
  split; [apply G|]. intros prices H. apply G. left.
  unfold set_prices, empty. cbn [_returns].
  rewrite (one_row_no_returns pad prices H).
  now destruct (columns _).
Qed.

Lemma optimize_degenerate_witness :
  optimize_sharpe_ratio sample_sqrt sample_minimize sample_optimizer = Some []
  /\ optimize_sharpe_ratio sample_sqrt sample_minimize
       (set_prices true sample_optimizer one_row_prices) = Some [].
Proof.
  split.
  - apply (proj1 (optimize_degenerate true sample_sqrt sample_minimize
                    sample_optimizer)).
    left. reflexivity.
  - apply (proj2 (optimize_degenerate true sample_sqrt sample_minimize
                    sample_optimizer) one_row_prices).
    simpl. lia.
Defined.

(** *** The return series *)

Lemma has_value_iff r :
  negb (forallb isna r) = true <-> exists c, In c r /\ isna c = false.
Proof.
  rewrite negb_true_iff. split.
  - intros H. induction r as [|c r IH]; [discriminate|]. simpl in H.
    destruct (isna c) eqn:E.
    + destruct (IH H) as (c' & Hin & Hc). exists c'. simpl. auto.
    + exists c. simpl. auto.
  - intros (c & Hin & Hc). destruct (forallb isna r) eqn:E; [|reflexivity].
    rewrite forallb_forall in E. rewrite (E c Hin) in Hc. discriminate.
Qed.

Lemma map2_length {A B C} (f : A -> B -> C) l l' :
  List.length (map2 f l l') = Nat.min (List.length l) (List.length l').
Proof. unfold map2. now rewrite length_map, length_combine. Qed.

Lemma fill_row_Fin prev cs :
  List.length prev = List.length cs -> fill_row prev (map Fin cs) = map Fin cs.
Proof.
  unfold fill_row. revert prev.
  induction cs as [|c cs IH]; intros [|p prev] H; simpl in *;
    try discriminate; try reflexivity.
  rewrite map2_cons. simpl. f_equal. apply IH. lia.
Qed.

Lemma ffill_from_Fin n prev qss :
  List.length prev = n -> Forall (fun qs => List.length qs = n) qss ->
  ffill_from prev (map (map Fin) qss) = map (map Fin) qss.
Proof.
  intros Hp H. revert prev Hp.
  induction H as [|qs qss Hq F IH]; intros prev Hp; simpl; [reflexivity|].
  rewrite fill_row_Fin by lia. f_equal. apply IH. now rewrite length_map.
Qed.

Lemma ffill_Fin n qss :
  Forall (fun qs => List.length qs = n) qss ->
  ffill (map (map Fin) qss) = map (map Fin) qss.
Proof.
  intros H. destruct H as [|qs qss Hq F]; simpl; [reflexivity|].
  f_equal. apply (ffill_from_Fin n); [now rewrite length_map | exact F].
Qed.

Lemma combine_removelast {A} (a : A) l :
  combine (removelast (a :: l)) l = combine (a :: l) l.
Proof.
  revert a. induction l as [|b l IH]; intros a; [reflexivity|].
  change (removelast (a :: b :: l)) with (a :: removelast (b :: l)).
  simpl combine. f_equal. apply IH.
Qed.

Lemma nan_row_dropped (r : list num) :
  r <> [] ->
  forallb (fun c => negb (isna c)) (map2 change (map (fun _ => NaN) r) r) = false.
Proof.
  destruct r as [|c r]; [congruence|]. intros _.
  simpl map. rewrite map2_cons, change_NaN. reflexivity.
Qed.

Lemma change_Fin p c :
  0 < p -> change (Fin p) (Fin c) = Fin (c / p - 1).
Proof.
  intros H. unfold change, div. destruct (Qeq_bool p 0) eqn:E; [|reflexivity].
  apply Qeq_bool_iff in E. lra.
Qed.

Lemma pct_row_Fin ps cs :
  Forall (fun q => 0 < q) ps ->
  map2 change (map Fin ps) (map Fin cs) =
  map Fin (map2 (fun p c => c / p - 1) ps cs).
Proof.
  intros H. revert cs. induction H as [|p ps Hp F IH]; intros [|c cs];
    try reflexivity.
  simpl map. rewrite !map2_cons, change_Fin by exact Hp. simpl. f_equal.
  apply IH.
Qed.

Lemma pct_rows_Fin pss css :
  Forall (Forall (fun q => 0 < q)) pss ->
  map2 (map2 change) (map (map Fin) pss) (map (map Fin) css) =
  map (map Fin) (map2 (map2 (fun p c => c / p - 1)) pss css).
Proof.
  intros H. revert css. induction H as [|ps pss Hp F IH]; intros [|cs css];
    try reflexivity.
  simpl map. rewrite !map2_cons, pct_row_Fin by exact Hp. simpl. f_equal.
  apply IH.
Qed.

Lemma dropna_Fin (qss : list (list Q)) :
  filter (fun r => forallb (fun c => negb (isna c)) r) (map (map Fin) qss)
  = map (map Fin) qss.
Proof.
  induction qss as [|qs qss IH]; simpl; [reflexivity|].
  assert (E : forallb (fun c => negb (isna c)) (map Fin qs) = true).
  { apply forallb_forall. intros c Hc. apply in_map_iff in Hc.
    now destruct Hc as (q & <- & _). }
  now rewrite E, IH.
Qed.

Lemma pct_row_spec ps cs :
  Forall (fun q => 0 < q) ps ->
  Forall2 Qeq (map2 (fun p c => c / p - 1) ps cs)
              (map2 (fun prev cur => (cur - prev) / prev) ps cs).
Proof.
  intros H. revert cs. induction H as [|p ps Hp F IH]; intros [|c cs];
    try constructor.
  - cbn. field. lra.
  - apply IH.
Qed.

Lemma pct_rows_spec pss css :
  Forall (Forall (fun q => 0 < q)) pss ->
  Forall2 (Forall2 Qeq)
          (map2 (map2 (fun p c => c / p - 1)) pss css)
          (map2 (map2 (fun prev cur => (cur - prev) / prev)) pss css).
Proof.
  intros H. revert css. induction H as [|ps pss Hp F IH]; intros [|cs css];
    try constructor.
  - now apply pct_row_spec.
  - apply IH.
Qed.


(** The return rows of a cleaned price matrix without a missing cell and
    with positive prices. *)
Lemma returns_of_clean_prices pad n qss :
  Forall (fun qs => List.length qs = n) qss ->
  Forall (fun qs => qs <> []) qss ->
  Forall (Forall (fun q => 0 < q)) qss ->
  rows (dropna (pct_change pad
                  {| columns := []; rows := map (map Fin) qss |})) =
  map (map Fin) (map2 (map2 (fun p c => c / p - 1)) qss (tl qss)).
Proof.
  intros Hlen Hne Hpos. unfold dropna, pct_change. cbn [rows].
  assert (E : (if pad then ffill (map (map Fin) qss) else map (map Fin) qss)
              = map (map Fin) qss).
  { destruct pad; [now apply (ffill_Fin n) | reflexivity]. }
  rewrite E. clear E.
  destruct qss as [|q0 qt]; [reflexivity|].
  cbn [map shift tl]. rewrite map2_cons. cbn [filter].
  rewrite nan_row_dropped.
  - unfold map2 at 1. rewrite combine_removelast.
    change (filter (fun r => forallb (fun c => negb (isna c)) r)
              (map2 (map2 change) (map (map Fin) (q0 :: qt))
                    (map (map Fin) qt))
            = map (map Fin)
                  (map2 (map2 (fun p c => c / p - 1)) (q0 :: qt) qt)).
    rewrite pct_rows_Fin by exact Hpos. apply dropna_Fin.
  - inversion Hne as [|? ? H0 _]; subst. destruct q0; [congruence|discriminate].
Qed.

Lemma has_value_negb r : negb (forallb isna r) = has_value r.
Proof.
  unfold has_value. induction r as [|c r IH]; [reflexivity|]. simpl.
  rewrite <- IH. now destruct (isna c), (forallb isna r).
Qed.

Lemma no_missing_forallb r :
  forallb (fun c => negb (isna c)) r = no_missing r.
Proof.
  unfold no_missing. induction r as [|c r IH]; [reflexivity|]. simpl.
  rewrite IH. now destruct (isna c), (existsb isna r).
Qed.

(** C5.  Whatever the price matrix, [set_prices] keeps exactly the price
    rows in which some asset has a value, in their order, and the return
    series is made of exactly the rows of the percentage change of the
    cleaned prices in which no asset is missing.  Hence, for a cleaned
    price matrix without a missing cell and with positive prices, the
    return series has the shape of the cleaned matrix minus its first row
    and each cell is $(p_t - p_{t-1}) / p_{t-1}$. *)
Theorem set_prices_returns pad self prices :
  let st := set_prices pad self prices in
  columns (_prices st) = columns prices /\
  rows (_prices st) = filter has_value (rows prices) /\
  columns (_returns st) = columns prices /\
  rows (_returns st) =
    filter no_missing (rows (pct_change pad (_prices st))) /\
  (forall qss,
      well_formed prices ->
      rows (_prices st) = map (map Fin) qss ->
      Forall (Forall (fun q => 0 < q)) qss ->
      exists rs,
        rows (_returns st) = map (map Fin) rs /\
        List.length rs = (List.length qss - 1)%nat /\
        Forall (fun r => List.length r = List.length (columns prices)) rs /\
        Forall2 (Forall2 Qeq) rs (return_series_spec qss)).
Proof.
  intros st.
  split; [reflexivity|].
  split.
  { unfold st, set_prices, dropna_all. cbn [_prices rows].
    apply filter_ext. intros r. apply has_value_negb. }
  split; [reflexivity|].
  split.
  { unfold st, set_prices, dropna. cbn [_returns _prices rows].
    apply filter_ext. intros r. apply no_missing_forallb. }
  intros qss Hwf Hrows Hpos.
  change (rows (_prices st)) with (rows (dropna_all prices)) in Hrows.
  assert (Hin : forall r, In r (rows (dropna_all prices)) <->
                          In r (rows prices)
                          /\ exists c, In c r /\ isna c = false).
  { intros r. unfold dropna_all. cbn [rows].
    now rewrite filter_In, has_value_iff. }
  assert (Hlen : Forall (fun qs => List.length qs = List.length (columns prices))
                        qss).
  { apply Forall_forall. intros qs Hqs.
    assert (H : In (map Fin qs) (rows (dropna_all prices)))
      by (rewrite Hrows; now apply in_map).
    apply Hin in H. destruct H as [H _].
    unfold well_formed in Hwf. rewrite Forall_forall in Hwf.
    specialize (Hwf _ H). now rewrite length_map in Hwf. }
  assert (Hne : Forall (fun qs : list Q => qs <> []) qss).
  { apply Forall_forall. intros qs Hqs.
    assert (H : In (map Fin qs) (rows (dropna_all prices)))
      by (rewrite Hrows; now apply in_map).
    apply Hin in H. destruct H as [_ (c & Hc & _)].
    intros ->. contradiction. }
  exists (map2 (map2 (fun p c => c / p - 1)) qss (tl qss)).
  split; [|split; [|split]].
  - unfold st, set_prices. cbn [_returns].
    rewrite <- (returns_of_clean_prices pad _ _ Hlen Hne Hpos).
    unfold dropna, pct_change. cbn [rows]. now rewrite Hrows.
  - rewrite map2_length. destruct qss; cbn [tl List.length]; lia.
  - apply Forall_forall. intros r Hr. unfold map2 in Hr at 1.
    apply in_map_iff in Hr. destruct Hr as ([ps cs] & <- & Hr). cbn [fst snd].
    rewrite Forall_forall in Hlen. rewrite map2_length.
    rewrite (Hlen ps) by (eapply in_combine_l; eassumption).
    rewrite (Hlen cs); [lia|].
    apply in_combine_r in Hr. destruct qss; [contradiction|]. now right.
  - now apply pct_rows_spec.
Qed.

Lemma set_prices_returns_witness :
  let st := set_prices true sample_optimizer sample_prices in
  rows (_prices st) = filter has_value (rows sample_prices) /\
  rows (_returns st) =
    filter no_missing (rows (pct_change true (_prices st))) /\
  exists rs,
    rows (_returns st) = map (map Fin) rs /\
    List.length rs = (List.length sample_cleaned - 1)%nat /\
    Forall (fun r => List.length r = List.length (columns sample_prices)) rs /\
    Forall2 (Forall2 Qeq) rs (return_series_spec sample_cleaned).
Proof.
  intros st.
  destruct (set_prices_returns true sample_optimizer sample_prices)
    as (_ & A & _ & B & C).
  split; [exact A|]. split; [exact B|].
  apply (C sample_cleaned).
  - repeat constructor.
  - reflexivity.
  - repeat constructor.
Defined.

(** A first price missing for one asset only: the cleaned matrix keeps
    its three rows, the return series has one row, not two. *)
Lemma partial_missingness_drops_returns :
  well_formed gap_prices /\
  List.length (rows (_prices (set_prices true sample_optimizer gap_prices)))
  = 3%nat /\
  List.length (rows (_returns (set_prices true sample_optimizer gap_prices)))
  = 1%nat /\
  List.length (rows (_prices (set_prices false sample_optimizer gap_prices)))
  = 3%nat /\
  List.length (rows (_returns (set_prices false sample_optimizer gap_prices)))
  = 1%nat.
Proof.
  split; [repeat constructor|]. repeat split; reflexivity.
Qed.

(** *** The optimizer on sample data *)

Example returns_sample :
  rows (_returns (set_prices true sample_optimizer sample_prices))
  = [[Fin (110 / 100 - 1); Fin (50 / 50 - 1)];
     [Fin (99 / 110 - 1); Fin (55 / 50 - 1)];
     [Fin (110 / 99 - 1); Fin (44 / 55 - 1)]].
Proof. reflexivity. Qed.

Example fallback_sample :
  optimize_sharpe_ratio sample_sqrt failing_minimize
    (set_prices true sample_optimizer sample_prices)
  = Some [("AAA", Fin (1 / 2)); ("BBB", Fin (1 / 2))]%string.
Proof. reflexivity. Qed.

(** Equal column labels share one entry of the dictionary. *)
Example duplicate_labels :
  dict_zip ["AAA"; "AAA"]%string (equal_weight 2) = [("AAA"%string, Fin (1 / 2))].
Proof. reflexivity. Qed.

Example not_initialized :
  optimize_sharpe_ratio sample_sqrt sample_minimize sample_optimizer = Some [].
Proof. reflexivity. Qed.

End MarkowitzProps.

(* ================================================================== *)
(** ** More about the screener *)

Module ScreenerExtras.
Import Screener ScreenerSpec ScreenerMore NumFacts ListFacts ScreenerProps.

(** *** Where the rows of the result come from *)

Lemma DataFrame_ticker rows r :
  In r (DataFrame rows) -> exists m, In m rows /\ Ticker r = Ticker m.
Proof.
  unfold DataFrame. rewrite in_map_iff. intros (m & <- & Hm).
  exists m. split; [exact Hm | reflexivity].
Qed.

Lemma fetched_ticker yf_info self tickers m :
  In m (fetched yf_info self tickers) ->
  In (Ticker m) tickers /\ yf_info (Ticker m) <> None.
Proof.
  unfold fetched. rewrite in_flat_map. intros (t & Ht & Hm).
  unfold _get_metrics in Hm. destruct (yf_info t) as [i|] eqn:E;
    simpl in Hm; [|contradiction].
  destruct Hm as [<-|[]]. simpl. rewrite E. split; [exact Ht | discriminate].
Qed.

(** X1.  Every row of the result of [filter_stocks] is for a ticker of
    the input whose fetch succeeded, passes the mask, and carries the
    score that [_score_row] gives it. *)
Theorem filter_stocks_rows yf_info argsort self tickers r s :
  In (r, s) (filter_stocks yf_info argsort self tickers) ->
  In (Ticker r) tickers /\ yf_info (Ticker r) <> None /\
  mask self r = true /\ s = _score_row self r.
Proof.
  rewrite filter_stocks_scored. intros H.
  apply head_incl, take_incl in H. unfold scored in H.
  apply in_map_iff in H. destruct H as (r' & E & H). inversion E; subst r' s.
  unfold retained in H. apply filter_In in H. destruct H as [H Hmask].
  apply DataFrame_ticker in H. destruct H as (m & Hm & ->).
  apply fetched_ticker in Hm. tauto.
Qed.

Lemma filter_stocks_rows_witness :
  In (Ticker sample_full) sample_tickers /\
  sample_yf (Ticker sample_full) <> None /\
  mask default_screener sample_full = true /\
  Fin (0 + (1 + (2 # 10)) + 1 + 1 + 1) = _score_row default_screener sample_full.
Proof.
  apply (filter_stocks_rows sample_yf stable_argsort default_screener
           sample_tickers).
  left. reflexivity.
Defined.


(** *** Scores *)

(** X2.  For thresholds that are numbers or [NaN] and metrics that are
    numbers, [NaN] or missing (the infinities are not covered), the score
    is a number between 0 and 4.2, never [NaN]. *)
Theorem score_row_bounds self row :
  exists s, _score_row self row = Fin s /\ 0 <= s /\ s <= 42 # 10.
Proof.
  assert (S1 : forall c t, exists s,
    match c with
    | Some roe =>
        if geb roe t
        then add (Fin 0) (add (Fin 1) (py_min (sub roe t) (Fin (2 # 10))))
        else Fin 0
    | None => Fin 0
    end = Fin s /\ 0 <= s /\ s <= 12 # 10).
  { intros [roe|] t; [|exists 0; repeat split; discriminate].
    destruct (geb roe t) eqn:E; [|exists 0; repeat split; discriminate].
    apply geb_true in E. destruct E as (x & y & -> & -> & H).
    destruct (roe_bonus x y H) as (b & Eb & _ & B0 & B1).
    rewrite Eb. cbn [add]. eexists. split; [reflexivity|]. lra. }
  assert (S2 : forall c (test : num -> bool) s, exists s',
    match c with
    | Some v => if test v then add (Fin s) (Fin 1) else Fin s
    | None => Fin s
    end = Fin s' /\ s <= s' /\ s' <= s + 1).
  { intros [v|] test s; [|exists s; split; [reflexivity|lra]].
    destruct (test v); cbn [add]; eexists; (split; [reflexivity|lra]). }
  unfold _score_row. cbv zeta.
  destruct (S1 (ROE row) (min_roe self)) as (s1 & E1 & L1 & U1). rewrite E1.
  destruct (S2 (DebtToEquity row)
               (fun de => leb de (max_debt_to_equity self)) s1)
    as (s2 & E2 & L2 & U2).
  cbv beta in E2. rewrite E2.
  destruct (S2 (ProfitMargin row)
               (fun pm => geb pm (min_profit_margin self)) s2)
    as (s3 & E3 & L3 & U3).
  cbv beta in E3. rewrite E3.
  destruct (S2 (PEG row)
               (fun peg => ltb peg (max_peg self) && gtb peg (Fin 0)) s3)
    as (s4 & E4 & L4 & U4).
  cbv beta in E4. rewrite E4.
  exists s4. split; [reflexivity|]. lra.
Qed.

Lemma present_missing c : missing c -> present c = 0.
Proof.
  intros H. apply cell_isna_missing in H. unfold present. now rewrite H.
Qed.

Lemma present_value q : present (Some (Fin q)) = 1.
Proof. reflexivity. Qed.

(** X3.  The mask and the score agree on what passing means: a row that
    the mask keeps earns one point for each metric that is present, plus
    the ROE bonus. *)
Theorem retained_row_score self row :
  mask self row = true ->
  exists s,
    _score_row self row = Fin s /\
    s == present (ROE row) + present (DebtToEquity row)
         + present (ProfitMargin row) + present (PEG row)
         + roe_bonus_value self row.
Proof.
  rewrite mask_passes. intros (Hr & Hd & Hm & Hp).
  unfold _score_row, roe_bonus_value.
  unfold roe_ok, debt_ok, margin_ok, peg_ok, at_least, at_most,
    positive_below in *.
  destruct Hr as [Hr|Hr].
  - assert (B : match ROE row, min_roe self with
                | Some (Fin q), Fin t => Qmin (q - t) (2 # 10)
                | _, _ => 0
                end = 0) by (destruct Hr as [-> | ->]; reflexivity).
    rewrite B, (present_missing _ Hr). clear B.
    destruct Hd as [Hd|Hd]; [rewrite (present_missing _ Hd) | ];
    (destruct Hm as [Hm|Hm]; [rewrite (present_missing _ Hm) | ]);
    (destruct Hp as [Hp|Hp]; [rewrite (present_missing _ Hp) | ]);
    try use_criterion Hd; try use_criterion Hm;
    try (use_criterion Hp; destruct Hp as [Hp0 Hp]);
    use_missing Hr;
    try (use_missing Hd); try (use_missing Hm); try (use_missing Hp);
    decide_tests; cbn [add]; rewrite ?present_value;
    (eexists; split; [reflexivity|lra]).
  - destruct Hr as (q & t & Er & Et & Hr). rewrite Er, Et.
    destruct (roe_bonus q t Hr) as (b & Eb & Hb & _).
    rewrite present_value.
    destruct Hd as [Hd|Hd]; [rewrite (present_missing _ Hd) | ];
    (destruct Hm as [Hm|Hm]; [rewrite (present_missing _ Hm) | ]);
    (destruct Hp as [Hp|Hp]; [rewrite (present_missing _ Hp) | ]);
    try use_criterion Hd; try use_criterion Hm;
    try (use_criterion Hp; destruct Hp as [Hp0 Hp]);
    try (use_missing Hd); try (use_missing Hm); try (use_missing Hp);
    decide_tests; rewrite Eb; cbn [add]; rewrite ?present_value;
    (eexists; split; [reflexivity|]; rewrite <- Hb; lra).
Qed.

Lemma retained_row_score_witness :
  exists s,
    _score_row default_screener sample_no_roe = Fin s /\
    s == present (ROE sample_no_roe) + present (DebtToEquity sample_no_roe)
         + present (ProfitMargin sample_no_roe) + present (PEG sample_no_roe)
         + roe_bonus_value default_screener sample_no_roe.
Proof.
  apply (retained_row_score default_screener sample_no_roe). reflexivity.
Defined.


(** *** The size and the cut of the result *)

Lemma take_ranking_perm yf_info argsort self tickers :
  argsort_spec argsort ->
  Permutation (take (scored yf_info self tickers)
                    (ranking yf_info argsort self tickers))
              (scored yf_info self tickers).
Proof.
  intros Hs. apply take_perm. now apply ranking_perm.
Qed.


(** X4.  The result has as many rows as the mask keeps, up to [top_n];
    a negative [top_n] removes that many rows from the end of the
    ranking instead. *)
Theorem filter_stocks_length yf_info argsort self tickers :
  argsort_spec argsort ->
  List.length (filter_stocks yf_info argsort self tickers) =
  if (0 <=? top_n self)%Z
  then Nat.min (Z.to_nat (top_n self))
               (List.length (retained yf_info self tickers))
  else (List.length (retained yf_info self tickers)
        - Z.to_nat (- top_n self))%nat.
Proof.
  intros Hs. rewrite filter_stocks_scored. unfold head.
  pose proof (Permutation_length (take_ranking_perm yf_info _ self tickers Hs))
    as L.
  unfold scored in L at 2. rewrite length_map in L.
  destruct (0 <=? top_n self)%Z; rewrite length_firstn, L; lia.
Qed.

Lemma filter_stocks_length_witness :
  List.length (filter_stocks sample_yf stable_argsort default_screener
                             sample_tickers) =
  if (0 <=? top_n default_screener)%Z
  then Nat.min (Z.to_nat (top_n default_screener))
               (List.length (retained sample_yf default_screener
                                      sample_tickers))
  else (List.length (retained sample_yf default_screener sample_tickers)
        - Z.to_nat (- top_n default_screener))%nat.
Proof.
  apply (filter_stocks_length sample_yf stable_argsort default_screener
           sample_tickers stable_argsort_spec).
Defined.




(** *** Thresholds *)

Lemma looser_passes a b row : looser a b -> passes b row -> passes a row.
Proof.
  intros (H1 & H2 & H3 & H4) (Hr & Hd & Hm & Hp).
  apply leb_true in H1, H2, H3, H4.
  destruct H1 as (x1 & y1 & A1 & B1 & L1).
  destruct H2 as (x2 & y2 & B2 & A2 & L2).
  destruct H3 as (x3 & y3 & A3 & B3 & L3).
  destruct H4 as (x4 & y4 & B4 & A4 & L4).
  unfold passes, roe_ok, debt_ok, margin_ok, peg_ok, at_least, at_most,
    positive_below in *.
  rewrite A1, A2, A3, A4. rewrite B1 in Hr. rewrite B2 in Hd.
  rewrite B3 in Hm. rewrite B4 in Hp.
  repeat split.
  - destruct Hr as [Hr | (q & t & E & Et & H)]; [now left | right].
    inversion Et; subst. exists q, x1. repeat split; auto.
    eapply Qle_trans; eassumption.
  - destruct Hd as [Hd | (q & t & E & Et & H)]; [now left | right].
    inversion Et; subst. exists q, y2. repeat split; auto.
    eapply Qle_trans; eassumption.
  - destruct Hm as [Hm | (q & t & E & Et & H)]; [now left | right].
    inversion Et; subst. exists q, x3. repeat split; auto.
    eapply Qle_trans; eassumption.
  - destruct Hp as [Hp | (q & t & E & Et & H0 & H)]; [now left | right].
    inversion Et; subst. exists q, y4. repeat split; auto.
    eapply Qlt_le_trans; eassumption.
Qed.

(** X6.  Stricter thresholds never let more assets through: a row kept
    under the thresholds of [b] is kept under thresholds that are at most
    as strict. *)
Theorem retained_looser yf_info a b tickers row :
  looser a b ->
  In row (retained yf_info b tickers) -> In row (retained yf_info a tickers).
Proof.
  intros Hl. unfold retained. rewrite !filter_In, !mask_passes.
  intros [H Hp]. split; [exact H | now apply (looser_passes a b)].
Qed.

Lemma retained_looser_witness :
  In (to_row (fetched sample_yf default_screener sample_tickers) sample_full)
     (retained sample_yf default_screener sample_tickers).
Proof.
  apply (retained_looser sample_yf default_screener strict_screener
           sample_tickers).
  - repeat split.
  - simpl. left. reflexivity.
Defined.

(** *** What is fetched *)

(** X25.  The tickers whose fetch fails are skipped; the others reach the
    data frame in the order of the input, as often as they occur in it. *)
Theorem fetched_tickers yf_info self tickers :
  map Ticker (fetched yf_info self tickers)
  = filter (has_info yf_info) tickers.
Proof.
  unfold fetched, has_info, _get_metrics.
  induction tickers as [|t ts IH]; [reflexivity|].
  cbn [flat_map filter]. rewrite map_app, IH.
  destruct (yf_info t); reflexivity.
Qed.

(** X26.  An asset for which no metric can be read is not filtered out:
    it passes the mask with every metric missing, and its score is 0. *)
Theorem no_metric_retained yf_info self tickers t i :
  In t tickers -> yf_info t = Some i -> no_metric i ->
  exists row,
    In row (retained yf_info self tickers) /\ Ticker row = t /\
    missing (ROE row) /\ missing (DebtToEquity row) /\
    missing (ProfitMargin row) /\ missing (PEG row) /\
    _score_row self row = Fin 0.
Proof.
  intros Ht Hi (Hr & Hd & Hm & Ho & Hp).
  set (m := {| Ticker := t; ROE := None; DebtToEquity := None;
               ProfitMargin := None; PEG := None |}).
  assert (Hf : In m (fetched yf_info self tickers)).
  { unfold fetched. apply in_flat_map. exists t. split; [exact Ht|].
    unfold _get_metrics. rewrite Hi, Hr, Hd, Hm, Ho, Hp. now left. }
  set (row := to_row (fetched yf_info self tickers) m).
  assert (M : missing (ROE row) /\ missing (DebtToEquity row) /\
              missing (ProfitMargin row) /\ missing (PEG row)).
  { unfold row, to_row. cbn [ROE DebtToEquity ProfitMargin PEG].
    repeat split; apply to_cell_missing; now left. }
  destruct M as (M1 & M2 & M3 & M4).
  assert (Hmask : mask self row = true).
  { apply mask_passes. unfold passes. tauto. }
  exists row. split.
  - unfold retained. apply filter_In. split; [|exact Hmask].
    unfold DataFrame. now apply in_map.
  - split; [reflexivity|]. repeat (split; [assumption|]).
    destruct (retained_row_score self row Hmask) as (s & Es & Hs).
    unfold roe_bonus_value in Hs.
    rewrite !present_missing in Hs by assumption.
    assert (B : match ROE row, min_roe self with
                | Some (Fin q), Fin t => Qmin (q - t) (2 # 10)
                | _, _ => 0
                end = 0) by (destruct M1 as [-> | ->]; reflexivity).
    rewrite B in Hs. clear B.
    unfold _score_row in *.
    destruct M1 as [E1|E1], M2 as [E2|E2], M3 as [E3|E3], M4 as [E4|E4];
      rewrite E1, E2, E3, E4; unfold geb, gtb;
      rewrite ?leb_NaN_r, ?ltb_NaN_r; reflexivity.
Qed.

Lemma no_metric_retained_witness :
  exists row,
    In row (retained blank_yf default_screener blank_tickers) /\
    Ticker row = "NEW"%string /\
    missing (ROE row) /\ missing (DebtToEquity row) /\
    missing (ProfitMargin row) /\ missing (PEG row) /\
    _score_row default_screener row = Fin 0.
Proof.
  apply (no_metric_retained blank_yf default_screener blank_tickers "NEW"
           {| returnOnEquity := PyNone; debtToEquity := PyFloat NaN;
              profitMargins := PyObject None; trailingPegRatio := PyNone;
              operatingMargins := PyNone |}).
  - right. left. reflexivity.
  - reflexivity.
  - repeat split.
Defined.

End ScreenerExtras.

(* ================================================================== *)
(** ** More about the optimizer *)

Module MarkowitzExtras.
Import Markowitz MarkowitzSpec MarkowitzMore NumFacts NumMore ListFacts
       MarkowitzProps.

(** *** The shape of the cached state *)

Section Shapes.
Variable n : nat.
Let wide (r : list num) : Prop := List.length r = n.

Lemma fill_row_wide prev cur : wide prev -> wide cur -> wide (fill_row prev cur).
Proof.
  unfold wide, fill_row. intros Hp Hc. rewrite map2_length. lia.
Qed.

Lemma ffill_from_wide prev data :
  wide prev -> Forall wide data -> Forall wide (ffill_from prev data).
Proof.
  intros Hp H. revert prev Hp.
  induction H as [|r data Hr F IH]; intros prev Hp; simpl; constructor.
  - now apply fill_row_wide.
  - apply IH. now apply fill_row_wide.
Qed.

Lemma ffill_wide data : Forall wide data -> Forall wide (ffill data).
Proof.
  intros H. destruct H as [|r data Hr F]; simpl; constructor; auto.
  now apply ffill_from_wide.
Qed.

Lemma removelast_incl {A} (l : list A) a : In a (removelast l) -> In a l.
Proof.
  induction l as [|x l IH]; [contradiction|].
  destruct l as [|y l]; [contradiction|].
  change (removelast (x :: y :: l)) with (x :: removelast (y :: l)).
  intros [<-|H]; [now left | right; now apply IH].
Qed.

Lemma shift_wide data : Forall wide data -> Forall wide (shift data).
Proof.
  intros H. destruct data as [|r data]; [constructor|].
  unfold shift. constructor.
  - unfold wide. rewrite length_map. now inversion H.
  - rewrite Forall_forall in *. intros x Hx. apply H.
    now apply removelast_incl.
Qed.

Lemma pct_change_wide pad df :
  Forall wide (rows df) -> Forall wide (rows (pct_change pad df)).
Proof.
  intros H. unfold pct_change. cbn [rows].
  set (data := if pad then ffill (rows df) else rows df).
  assert (Hd : Forall wide data)
    by (unfold data; destruct pad; [now apply ffill_wide | exact H]).
  pose proof (shift_wide data Hd) as Hs.
  rewrite Forall_forall in *. intros r Hr. unfold map2 in Hr at 1.
  apply in_map_iff in Hr. destruct Hr as ([s d] & <- & Hr). cbn [fst snd].
  unfold wide. rewrite map2_length.
  rewrite (Hs s) by (eapply in_combine_l; eassumption).
  rewrite (Hd d) by (eapply in_combine_r; eassumption). lia.
Qed.

Lemma filter_wide (f : list num -> bool) data :
  Forall wide data -> Forall wide (filter f data).
Proof.
  rewrite !Forall_forall. intros H r Hr. apply filter_In in Hr. now apply H.
Qed.

End Shapes.

Lemma concat_length_wide (n : nat) (m : list (list num)) :
  Forall (fun r => List.length r = n) m ->
  List.length (concat m) = (List.length m * n)%nat.
Proof.
  induction 1 as [|r m Hr F IH]; simpl; [reflexivity|].
  rewrite length_app, IH, Hr. reflexivity.
Qed.

Lemma returns_wide pad prices :
  well_formed prices ->
  Forall (fun r => List.length r = List.length (columns prices))
         (rows (dropna (pct_change pad (dropna_all prices)))).
Proof.
  intros H. unfold dropna. cbn [rows]. apply filter_wide.
  apply pct_change_wide. unfold dropna_all. cbn [rows].
  apply filter_wide. exact H.
Qed.

(** X7.  After [set_prices] on a well-formed price matrix, the return
    matrix has the columns of the prices, one cell per column in every
    row and no missing value; there is one mean per column and the
    covariance matrix is square, so that its size is the square of the
    number of columns. *)
Theorem set_prices_shapes pad self prices :
  well_formed prices ->
  let st := set_prices pad self prices in
  let n := List.length (columns prices) in
  columns (_returns st) = columns prices /\
  well_formed (_returns st) /\
  Forall (Forall (fun c => isna c = false)) (rows (_returns st)) /\
  List.length (_mean_returns st) = n /\
  List.length (_cov_matrix st) = n /\
  Forall (fun r => List.length r = n) (_cov_matrix st) /\
  size (_cov_matrix st) = (n * n)%nat.
Proof.
  intros H st n.
  assert (C : Forall (fun r => List.length r = n) (_cov_matrix st)).
  { unfold st, set_prices, cov_values. cbn [_cov_matrix columns].
    apply Forall_forall. intros r Hr. apply in_map_iff in Hr.
    destruct Hr as (r' & <- & Hr). apply in_map_iff in Hr.
    destruct Hr as (i & <- & _).
    now rewrite !length_map, length_seq. }
  assert (L : List.length (_cov_matrix st) = n).
  { unfold st, set_prices, cov_values. cbn [_cov_matrix columns].
    now rewrite !length_map, length_seq. }
  split; [reflexivity|]. split; [exact (returns_wide pad prices H)|].
  split; [|split; [|split; [exact L|split; [exact C|]]]].
  - unfold st, set_prices, dropna. cbn [_returns rows].
    apply Forall_forall. intros r Hr. apply filter_In in Hr.
    destruct Hr as [_ Hr]. rewrite forallb_forall in Hr.
    apply Forall_forall. intros c Hc. specialize (Hr c Hc).
    now apply negb_true_iff in Hr.
  - unfold st, set_prices, mean_values. cbn [_mean_returns columns].
    now rewrite !length_map, length_seq.
  - unfold size. rewrite (concat_length_wide n _ C), L. reflexivity.
Qed.

Lemma set_prices_shapes_witness :
  let st := set_prices true sample_optimizer sample_prices in
  let n := List.length (columns sample_prices) in
  columns (_returns st) = columns sample_prices /\
  well_formed (_returns st) /\
  Forall (Forall (fun c => isna c = false)) (rows (_returns st)) /\
  List.length (_mean_returns st) = n /\
  List.length (_cov_matrix st) = n /\
  Forall (fun r => List.length r = n) (_cov_matrix st) /\
  size (_cov_matrix st) = (n * n)%nat.
Proof.
  apply (set_prices_shapes true sample_optimizer sample_prices).
  repeat constructor.
Defined.


(** *** When the objective is defined *)

(** X9.  For the state that [set_prices] leaves after a well-formed price
    matrix, the objective is defined exactly on the weight vectors that
    have one weight per column; on any other it fails, as [np.dot] does
    on shapes that are not aligned. *)
Theorem negative_sharpe_defined pad sqrtQ self prices weights :
  well_formed prices ->
  let st := set_prices pad self prices in
  _negative_sharpe sqrtQ st weights <> None <->
  List.length weights = List.length (columns prices).
Proof.
  intros H st.
  destruct (set_prices_shapes pad self prices H)
    as (_ & _ & _ & Lm & Lc & Wc & _).
  fold st in Lm, Lc, Wc. unfold _negative_sharpe, variance. split.
  - intros N. destruct (dot weights (_mean_returns st)) as [r|] eqn:E;
      [|congruence].
    apply dot_length in E. congruence.
  - intros L.
    destruct (dot_defined weights (_mean_returns st)) as [r ->];
      [congruence|].
    destruct (matvec_defined (_cov_matrix st) weights) as (cw & -> & Lw).
    { rewrite L. exact Wc. }
    destruct (dot_defined weights cw) as [v ->]; [congruence|].
    destruct (leb (np_sqrt sqrtQ v) (Fin 0)); discriminate.
Qed.

Lemma negative_sharpe_defined_witness :
  _negative_sharpe sample_sqrt
    (set_prices true sample_optimizer sample_prices) [Fin 1] <> None <->
  List.length [Fin 1] = List.length (columns sample_prices).
Proof.
  apply (negative_sharpe_defined true sample_sqrt sample_optimizer
           sample_prices [Fin 1]).
  repeat constructor.
Defined.

(** *** Where the guard of the objective does not reach *)

(** X10.  The guard [port_vol <= 0] does not catch an undefined
    volatility: when the quadratic form [w . (cov . w)] is negative or
    [NaN], the objective is [NaN], not 0. *)
Theorem negative_sharpe_undefined sqrtQ self weights port_return var :
  dot weights (_mean_returns self) = Some port_return ->
  variance self weights = Some var ->
  var = NaN \/ (exists q, var = Fin q /\ q < 0) ->
  _negative_sharpe sqrtQ self weights = Some NaN.
Proof.
  intros Hr Hv Hbad. unfold _negative_sharpe. rewrite Hr, Hv.
  assert (E : np_sqrt sqrtQ var = NaN).
  { destruct Hbad as [-> | (q & -> & Hq)]; [reflexivity|].
    unfold np_sqrt. apply Qle_bool_false in Hq. now rewrite Hq. }
  rewrite E. cbn [leb]. now rewrite div_NaN_r.
Qed.


Lemma negative_sharpe_undefined_witness :
  _negative_sharpe sample_sqrt
    (set_prices true sample_optimizer two_row_prices)
    [Fin (1 # 2); Fin (1 # 2)] = Some NaN.
Proof.
  apply (negative_sharpe_undefined sample_sqrt
           (set_prices true sample_optimizer two_row_prices)
           [Fin (1 # 2); Fin (1 # 2)]
           (Fin ((1 # 2) * ((110 / 100 - 1) * 252)
                 + ((1 # 2) * ((55 / 50 - 1) * 252) + 0)))
           NaN).
  - reflexivity.
  - reflexivity.
  - left. reflexivity.
Defined.

(** *** Clipping and renormalizing *)

Lemma clipQ_nonneg q : 0 <= q -> clipQ q == q.
Proof.
  intros H. unfold clipQ. destruct (Qle_bool q 0) eqn:E; [|reflexivity].
  apply Qle_bool_iff in E. lra.
Qed.

Lemma Qsum_clip_nonneg qs :
  Forall (fun q => 0 <= q) qs -> Qsum (map clipQ qs) == Qsum qs.
Proof.
  induction 1 as [|q qs H F IH]; simpl; [reflexivity|].
  now rewrite !Qsum_cons, IH, clipQ_nonneg.
Qed.

(** X11.  A result that is already long-only and fully invested
    (finite weights, none negative, summing to 1) comes out of the
    clipping and renormalizing with the same values. *)
Theorem renormalize_simplex qs :
  Forall (fun q => 0 <= q) qs -> Qsum qs == 1 ->
  Forall2 equiv (renormalize (map Fin qs)) (map Fin qs).
Proof.
  intros Hnn Hsum.
  pose proof (Qsum_clip_nonneg qs Hnn) as Hc.
  assert (Hpos : 0 < Qsum (map clipQ qs)) by (rewrite Hc, Hsum; reflexivity).
  rewrite (renormalize_Fin qs Hpos). rewrite !map_map.
  assert (G : forall total, total == 1 ->
             Forall2 equiv (map (fun q => Fin (clipQ q / total)) qs)
                           (map Fin qs)).
  { intros total Ht. clear Hc Hpos Hsum.
    induction Hnn as [|q qs Hq F IH]; simpl; constructor; [|exact IH].
    simpl. rewrite (clipQ_nonneg q Hq), Ht. field. }
  apply G. now rewrite Hc.
Qed.

Lemma renormalize_simplex_witness :
  Forall2 equiv (renormalize (map Fin [3 # 4; 1 # 4])) (map Fin [3 # 4; 1 # 4]).
Proof.
  apply (renormalize_simplex [3 # 4; 1 # 4]).
  - repeat constructor; discriminate.
  - reflexivity.
Defined.

Lemma Qsum_zeros {A} (l : list A) : Qsum (map (fun _ => 0) l) == 0.
Proof.
  induction l as [|a l IH]; simpl; [reflexivity|].
  rewrite Qsum_cons, IH. reflexivity.
Qed.

Lemma renormalize_no_positive qs :
  Forall (fun q => q <= 0) qs ->
  renormalize (map Fin qs) = map (fun _ => NaN) qs.
Proof.
  intros H. unfold renormalize. rewrite clip_Fin, sum_Fin.
  assert (E : map clipQ qs = map (fun _ => 0) qs).
  { apply map_ext_in. intros q Hq. rewrite Forall_forall in H.
    unfold clipQ. now rewrite (proj2 (Qle_bool_iff q 0) (H q Hq)). }
  rewrite E, !map_map. apply map_ext. intros q. unfold div.
  now rewrite (proj2 (Qeq_bool_iff _ 0) (Qsum_zeros qs)).
Qed.

Lemma dict_zip_values keys vals v :
  In v (values (dict_zip keys vals)) -> In v vals.
Proof.
  unfold values. rewrite in_map_iff. intros ([k v'] & <- & H).
  apply fold_dict_set_In in H. destruct H as [H|[]].
  eapply in_combine_r. eassumption.
Qed.

(** X12.  The renormalization is not guarded: when a result reported as
    successful has no positive entry, the clipped weights sum to 0 and
    every weight of the returned mapping is [NaN]. *)
Theorem optimize_no_positive sqrtQ minimize self result qs :
  empty (_returns self) = false -> size (_cov_matrix self) <> 0%nat ->
  solve sqrtQ minimize self = Some result -> success result = true ->
  x result = map Fin qs -> Forall (fun q => q <= 0) qs ->
  exists w, optimize_sharpe_ratio sqrtQ minimize self = Some w /\
            Forall (fun v => v = NaN) (values w).
Proof.
  intros He Hs Hsolve Hok Hx Hq. unfold optimize_sharpe_ratio.
  apply Nat.eqb_neq in Hs. rewrite He, Hs, Hsolve, Hok, Hx. cbn [orb negb].
  eexists. split; [reflexivity|].
  apply Forall_forall. intros v Hv. apply dict_zip_values in Hv.
  rewrite (renormalize_no_positive qs Hq) in Hv.
  apply in_map_iff in Hv. now destruct Hv as (q & <- & _).
Qed.

Lemma optimize_no_positive_witness :
  exists w,
    optimize_sharpe_ratio sample_sqrt zero_minimize
      (set_prices true sample_optimizer sample_prices) = Some w /\
    Forall (fun v => v = NaN) (values w).
Proof.
  apply (optimize_no_positive sample_sqrt zero_minimize
           (set_prices true sample_optimizer sample_prices)
           {| success := true; x := [Fin 0; Fin 0] |} [0; 0]).
  - reflexivity.
  - vm_compute. discriminate.
  - reflexivity.
  - reflexivity.
  - reflexivity.
  - repeat constructor; discriminate.
Defined.

(** *** The keys of the mapping *)

Lemma dict_set_NoDup d k v :
  NoDup (map fst d) -> NoDup (map fst (dict_set d k v)).
Proof.
  induction d as [|[k' v'] d IH]; simpl; intros H.
  - repeat constructor. intros [].
  - inversion H as [|? ? Hk Hd]; subst.
    destruct (String.eqb_spec k k') as [->|N]; simpl.
    + now constructor.
    + constructor; [|now apply IH].
      rewrite dict_set_keys. intros [E|E]; [congruence | contradiction].
Qed.

Lemma dict_zip_NoDup keys vals : NoDup (map fst (dict_zip keys vals)).
Proof.
  unfold dict_zip.
  assert (G : forall items d,
             NoDup (map fst d) ->
             NoDup (map fst (fold_left
                               (fun d kv => dict_set d (fst kv) (snd kv))
                               items d))).
  { induction items as [|kv items IH]; intros d H; simpl; [exact H|].
    apply IH. now apply dict_set_NoDup. }
  apply G. constructor.
Qed.

Lemma renormalize_length weights :
  List.length (renormalize weights) = List.length weights.
Proof. unfold renormalize, clip. now rewrite !length_map. Qed.

(** X13.  The returned mapping has one entry for each distinct column
    label, also when labels repeat (a later column then replaces the
    weight of an earlier one). *)
Theorem optimize_keys sqrtQ minimize self result :
  empty (_returns self) = false -> size (_cov_matrix self) <> 0%nat ->
  solve sqrtQ minimize self = Some result ->
  (success result = true ->
   List.length (x result) = List.length (columns (_returns self))) ->
  exists w, optimize_sharpe_ratio sqrtQ minimize self = Some w /\
            NoDup (map fst w) /\
            forall k, In k (map fst w) <-> In k (columns (_returns self)).
Proof.
  intros He Hs Hsolve Hlen. unfold optimize_sharpe_ratio.
  apply Nat.eqb_neq in Hs. rewrite He, Hs, Hsolve. cbn [orb].
  set (tickers := columns (_returns self)) in *.
  set (weights := if negb (success result)
                  then equal_weight (List.length tickers)
                  else renormalize (x result)).
  assert (L : List.length tickers = List.length weights).
  { unfold weights. destruct (success result); simpl.
    - rewrite renormalize_length. symmetry. now apply Hlen.
    - now rewrite equal_weight_length. }
  exists (dict_zip tickers weights). split; [reflexivity|].
  split; [apply dict_zip_NoDup|].
  intros k. unfold dict_zip. rewrite fold_dict_set_keys.
  rewrite (map_fst_combine _ _ L). simpl. tauto.
Qed.

Lemma optimize_keys_witness :
  exists w,
    optimize_sharpe_ratio sample_sqrt failing_minimize
      (set_prices true sample_optimizer twin_prices) = Some w /\
    NoDup (map fst w) /\
    forall k, In k (map fst w) <->
              In k (columns (_returns (set_prices true sample_optimizer
                                                  twin_prices))).
Proof.
  apply (optimize_keys sample_sqrt failing_minimize
           (set_prices true sample_optimizer twin_prices)
           {| success := false; x := equal_weight 2 |}).
  - reflexivity.
  - vm_compute. discriminate.
  - reflexivity.
  - discriminate.
Defined.


(** *** The covariance matrix *)

Lemma nth_map_seq {A} (f : nat -> A) n i d :
  nth i (map f (seq 0 n)) d = if (i <? n)%nat then f i else d.
Proof.
  destruct (Nat.ltb_spec i n) as [H|H].
  - rewrite (nth_indep _ d (f 0%nat)) by (now rewrite length_map, length_seq).
    rewrite map_nth, seq_nth by exact H. reflexivity.
  - apply nth_overflow. now rewrite length_map, length_seq.
Qed.

Lemma entry_cov_values df i j :
  entry (cov_values df) i j =
  if ((i <? List.length (columns df)) && (j <? List.length (columns df)))%nat
  then cov_entry (column i (rows df)) (column j (rows df))
  else NaN.
Proof.
  unfold entry, cov_values. rewrite nth_map_seq.
  destruct (i <? List.length (columns df))%nat; simpl.
  - now rewrite nth_map_seq.
  - now destruct j.
Qed.

Lemma entry_scaled (g : num -> num) m i j :
  g NaN = NaN -> entry (map (map g) m) i j = g (entry m i j).
Proof.
  intros H. unfold entry.
  change (@nil num) with (map g []) at 1. rewrite map_nth.
  rewrite <- H at 1. apply map_nth.
Qed.

Lemma products_sym (mi mj : num) xi xj :
  Forall2 equiv
    (map2 (fun a b => mul (sub a mi) (sub b mj)) xi xj)
    (map2 (fun a b => mul (sub a mj) (sub b mi)) xj xi).
Proof.
  revert xj. induction xi as [|a xi IH]; intros [|b xj]; try constructor.
  - apply mul_comm.
  - apply IH.
Qed.

Lemma cov_entry_sym xi xj :
  List.length xi = List.length xj ->
  equiv (cov_entry xi xj) (cov_entry xj xi).
Proof.
  intros L. unfold cov_entry. rewrite <- L.
  destruct (Z.of_nat (List.length xi) - 1 <=? 0)%Z; [exact I|].
  apply div_equiv; [|apply equiv_refl].
  apply sum_equiv, products_sym.
Qed.

Lemma in_combine_same {A} (l : list A) a b : In (a, b) (combine l l) -> a = b.
Proof.
  induction l as [|x l IH]; simpl; [contradiction|].
  intros [E|H]; [now inversion E | now apply IH].
Qed.

Lemma cov_entry_diagonal x v : cov_entry x x = Fin v -> 0 <= v.
Proof.
  unfold cov_entry.
  destruct (Z.of_nat (List.length x) - 1 <=? 0)%Z eqn:Et; [discriminate|].
  apply Z.leb_gt in Et.
  set (m := div (sum x) (of_nat (List.length x))).
  destruct (sum (map2 (fun a b => mul (sub a m) (sub b m)) x x)) as [|s] eqn:Es;
    [discriminate|].
  unfold div.
  destruct (Qeq_bool (inject_Z (Z.of_nat (List.length x) - 1)) 0);
    [discriminate|].
  intros E. inversion E; subst v. clear E.
  assert (P : 0 < inject_Z (Z.of_nat (List.length x) - 1)).
  { change 0 with (inject_Z 0). rewrite <- Zlt_Qlt. lia. }
  apply Qle_shift_div_l; [exact P|]. rewrite Qmult_0_l.
  unfold sum in Es. apply fold_add_Fin_inv in Es.
  destruct Es as (qs & q0 & Eqs & E0 & ->). inversion E0; subst q0.
  apply (Qsum_nonneg qs). apply Forall_forall. intros q Hq.
  assert (Hin : In (Fin q) (map Fin qs)) by now apply in_map.
  rewrite <- Eqs in Hin. unfold map2 in Hin. apply in_map_iff in Hin.
  destruct Hin as ([a b] & E & Hin). apply in_combine_same in Hin. subst b.
  cbn [fst snd] in E. destruct (sub a m) as [|y]; [discriminate|].
  simpl in E. inversion E. nra.
Qed.

Lemma column_length j data : List.length (column j data) = List.length data.
Proof. unfold column. apply length_map. Qed.

(** X8.  The covariance matrix that [set_prices] caches is symmetric,
    and an entry of its diagonal that is defined is not negative. *)
Theorem covariance_symmetric pad self prices i j :
  let c := _cov_matrix (set_prices pad self prices) in
  equiv (entry c i j) (entry c j i) /\
  (forall v, entry c i i = Fin v -> 0 <= v).
Proof.
  intros c. unfold c, set_prices. cbn [_cov_matrix].
  rewrite !(entry_scaled (fun x => mul x (Fin 252))) by reflexivity.
  rewrite !entry_cov_values.
  set (R := dropna (pct_change pad (dropna_all prices))).
  split.
  - apply mul_equiv; [|apply equiv_refl].
    rewrite (andb_comm (j <? _)%nat).
    destruct ((i <? List.length (columns R))
              && (j <? List.length (columns R)))%nat; [|exact I].
    apply cov_entry_sym. now rewrite !column_length.
  - intros v. rewrite andb_diag.
    destruct (i <? List.length (columns R))%nat; [|discriminate].
    destruct (cov_entry (column i (rows R)) (column i (rows R))) as [|u] eqn:E;
      [discriminate|].
    apply cov_entry_diagonal in E. simpl. intros H. inversion H. nra.
Qed.


(** *** No variance at all *)





Lemma sample_sqrt_zero q : q == 0 -> sample_sqrt q == 0.
Proof.
  intros H. unfold Qeq in H. simpl in H. rewrite Z.mul_1_r in H.
  unfold sample_sqrt. rewrite H. reflexivity.
Qed.


End MarkowitzExtras.

(* ================================================================== *)
(** ** The statistics *)

Module StatsProps.
Import Markowitz MarkowitzSpec MarkowitzMore Stats NumFacts NumMore ListFacts
       MarkowitzProps.

(** *** Windows *)

Lemma window_at_Fin window qs i :
  window_at window (map Fin qs) i = map Fin (skipn (i + 1 - window) (firstn (i + 1) qs)).
Proof. unfold window_at. now rewrite firstn_map, skipn_map. Qed.

Lemma observed_Fin qs : observed (map Fin qs) = map Fin qs.
Proof.
  unfold observed. induction qs as [|q qs IH]; simpl; [reflexivity|].
  now rewrite IH.
Qed.

Lemma window_length {A} window (l : list A) i :
  (i < List.length l)%nat ->
  List.length (skipn (i + 1 - window) (firstn (i + 1) l))
  = Nat.min window (i + 1).
Proof. intros H. rewrite length_skipn, length_firstn. lia. Qed.

Lemma window_incl {A} window (l : list A) i a :
  In a (skipn (i + 1 - window) (firstn (i + 1) l)) -> In a l.
Proof.
  intros H.
  assert (H1 : In a (firstn (i + 1) l)).
  { rewrite <- (firstn_skipn (i + 1 - window) (firstn (i + 1) l)).
    apply in_or_app. now right. }
  rewrite <- (firstn_skipn (i + 1) l). apply in_or_app. now left.
Qed.

Lemma rolling_mean_nth window values i :
  (i < List.length values)%nat ->
  nth i (rolling_mean window values) NaN =
  let obs := observed (window_at window values i) in
  if (window <=? List.length obs)%nat && (0 <? List.length obs)%nat
  then div (sum obs) (of_nat (List.length obs))
  else NaN.
Proof.
  intros H. unfold rolling_mean. rewrite nth_map_seq_lt; [reflexivity|exact H].
Qed.


Lemma Qsum_between lo hi l :
  Forall (fun q => lo <= q /\ q <= hi) l ->
  inject_Z (Z.of_nat (List.length l)) * lo <= Qsum l /\
  Qsum l <= inject_Z (Z.of_nat (List.length l)) * hi.
Proof.
  induction 1 as [|q l [H1 H2] F [IH1 IH2]].
  - unfold Qsum. simpl. change (inject_Z 0) with 0. lra.
  - cbn [List.length]. rewrite Qsum_cons, Nat2Z.inj_succ. unfold Z.succ.
    rewrite inject_Z_plus. change (inject_Z 1) with 1. lra.
Qed.

Lemma mean_between lo hi l :
  l <> [] -> Forall (fun q => lo <= q /\ q <= hi) l ->
  lo <= Qsum l / inject_Z (Z.of_nat (List.length l)) /\
  Qsum l / inject_Z (Z.of_nat (List.length l)) <= hi.
Proof.
  intros Hne H. destruct (Qsum_between lo hi l H) as [H1 H2].
  assert (P : 0 < inject_Z (Z.of_nat (List.length l))).
  { change 0 with (inject_Z 0). rewrite <- Zlt_Qlt.
    destruct l; [congruence | simpl; lia]. }
  split.
  - apply Qle_shift_div_l; [exact P | lra].
  - apply Qle_shift_div_r; [exact P | lra].
Qed.

(** The mean of a window of a series without missing value. *)
Lemma rolling_mean_Fin window qs i :
  (i < List.length qs)%nat -> (1 <= window)%nat ->
  nth i (rolling_mean window (map Fin qs)) NaN =
  if (i + 1 <? window)%nat then NaN
  else Fin (Qsum (skipn (i + 1 - window) (firstn (i + 1) qs))
            / inject_Z (Z.of_nat window)).
Proof.
  intros Hi Hw. rewrite rolling_mean_nth by (now rewrite length_map).
  cbv zeta. rewrite window_at_Fin, observed_Fin, length_map.
  rewrite (window_length window qs i Hi).
  destruct (Nat.ltb_spec (i + 1) window) as [H|H].
  - replace (window <=? Nat.min window (i + 1))%nat with false; [reflexivity|].
    symmetry. apply Nat.leb_gt. lia.
  - replace (Nat.min window (i + 1)) with window by lia.
    rewrite Nat.leb_refl. replace (0 <? window)%nat with true
      by (symmetry; apply Nat.ltb_lt; lia).
    cbn [andb]. rewrite sum_Fin. unfold div, of_nat.
    now rewrite of_nat_nonzero by lia.
Qed.

(** X15.  For prices without a missing value and a period of at least 1,
    the moving average has one value per price; the first [period - 1]
    are [NaN], and each later one is the mean of the last [period] prices,
    so that it lies between any two bounds of the prices. *)
Theorem calculate_sma_values qs period lo hi :
  (1 <= period)%Z ->
  Forall (fun q => lo <= q /\ q <= hi) qs ->
  exists sma,
    calculate_sma (map Fin qs) period = Some sma /\
    List.length sma = List.length qs /\
    forall i, (i < List.length qs)%nat ->
      if (Z.of_nat i + 1 <? period)%Z then nth i sma NaN = NaN
      else exists v,
          nth i sma NaN = Fin v /\
          v == Qsum (skipn (i + 1 - Z.to_nat period) (firstn (i + 1) qs))
               / inject_Z period /\
          lo <= v /\ v <= hi.
Proof.
  intros Hp Hb. unfold calculate_sma, rolling.
  replace (period <? 0)%Z with false by (symmetry; apply Z.ltb_ge; lia).
  eexists. split; [reflexivity|]. split.
  - unfold rolling_mean. now rewrite length_map, length_seq, length_map.
  - intros i Hi. rewrite (rolling_mean_Fin _ qs i Hi) by lia.
    destruct (Z.ltb_spec (Z.of_nat i + 1) period) as [H|H].
    + replace (i + 1 <? Z.to_nat period)%nat with true; [reflexivity|].
      symmetry. apply Nat.ltb_lt. lia.
    + replace (i + 1 <? Z.to_nat period)%nat with false
        by (symmetry; apply Nat.ltb_ge; lia).
      set (win := skipn (i + 1 - Z.to_nat period) (firstn (i + 1) qs)).
      rewrite Z2Nat.id by lia.
      eexists. split; [reflexivity|]. split; [reflexivity|].
      assert (L : List.length win = Z.to_nat period).
      { unfold win. rewrite (window_length _ qs i Hi). lia. }
      assert (Hne : win <> []).
      { intros E. rewrite E in L. simpl in L. lia. }
      assert (Hw : Forall (fun q => lo <= q /\ q <= hi) win).
      { rewrite Forall_forall in *. intros q Hq. apply Hb.
        eapply window_incl. exact Hq. }
      pose proof (mean_between lo hi win Hne Hw) as M.
      rewrite L, Z2Nat.id in M by lia. exact M.
Qed.

Lemma calculate_sma_values_witness :
  exists sma,
    calculate_sma (map Fin [10; 12; 11; 11; 15; 9]) 3 = Some sma /\
    List.length sma = List.length [10; 12; 11; 11; 15; 9] /\
    forall i, (i < List.length [10; 12; 11; 11; 15; 9])%nat ->
      if (Z.of_nat i + 1 <? 3)%Z then nth i sma NaN = NaN
      else exists v,
          nth i sma NaN = Fin v /\
          v == Qsum (skipn (i + 1 - Z.to_nat 3)
                           (firstn (i + 1) [10; 12; 11; 11; 15; 9]))
               / inject_Z 3 /\
          9 <= v /\ v <= 15.
Proof.
  apply (calculate_sma_values [10; 12; 11; 11; 15; 9] 3 9 15).
  - lia.
  - repeat constructor; discriminate.
Defined.


(** *** The relative strength index *)

Lemma gains_nonneg delta : Forall nonneg (where_positive delta).
Proof.
  apply Forall_forall. intros c Hc. unfold where_positive in Hc.
  apply in_map_iff in Hc. destruct Hc as (d & <- & _).
  destruct (gtb d (Fin 0)) eqn:E.
  - apply gtb_true in E. destruct E as (x & y & -> & Ey & H).
    inversion Ey; subst y. exists x. split; [reflexivity | lra].
  - exists 0. split; [reflexivity | lra].
Qed.


Lemma nonneg_Fin l :
  Forall nonneg l -> exists qs, l = map Fin qs /\ Forall (fun q => 0 <= q) qs.
Proof.
  induction 1 as [|c l (q & -> & Hq) F (qs & -> & IH)].
  - exists []. split; [reflexivity | constructor].
  - exists (q :: qs). split; [reflexivity | now constructor].
Qed.








Lemma nth_map2 {A B C} (f : A -> B -> C) l l' i d da db :
  (i < List.length l)%nat -> (i < List.length l')%nat ->
  nth i (map2 f l l') d = f (nth i l da) (nth i l' db).
Proof.
  revert l' i. induction l as [|a l IH]; intros [|b l'] i H H';
    cbn [List.length] in *; try lia.
  rewrite map2_cons. destruct i as [|i]; [reflexivity|].
  cbn [nth]. apply IH; lia.
Qed.

Lemma diff_length values : List.length (diff values) = List.length values.
Proof.
  destruct values as [|v rest]; [reflexivity|].
  unfold diff. cbn [List.length]. rewrite map2_length. cbn [List.length]. lia.
Qed.

Lemma rolling_mean_length window values :
  List.length (rolling_mean window values) = List.length values.
Proof. unfold rolling_mean. now rewrite length_map, length_seq. Qed.

Lemma rolling_mean_warmup window values i :
  (i + 1 < window)%nat -> nth i (rolling_mean window values) NaN = NaN.
Proof.
  intros H. destruct (Nat.lt_ge_cases i (List.length values)) as [Hi|Hi].
  - rewrite rolling_mean_nth by exact Hi. cbv zeta.
    set (obs := observed (window_at window values i)).
    assert (L : (List.length obs <= i + 1)%nat).
    { unfold obs, observed.
      etransitivity; [apply filter_length_le|].
      unfold window_at. rewrite length_skipn, length_firstn. lia. }
    replace (window <=? List.length obs)%nat with false; [reflexivity|].
    symmetry. apply Nat.leb_gt. lia.
  - apply nth_overflow. now rewrite rolling_mean_length.
Qed.

Lemma rsi_length prices period rsi :
  calculate_rsi prices period = Some rsi ->
  List.length rsi = List.length prices.
Proof.
  unfold calculate_rsi, rolling. destruct (period <? 0)%Z; [discriminate|].
  intros E. inversion E. unfold where_positive, where_negative.
  rewrite length_map, map2_length, !rolling_mean_length, !length_map,
    diff_length. lia.
Qed.

Lemma rsi_nth prices period rsi i :
  calculate_rsi prices period = Some rsi -> (i < List.length prices)%nat ->
  nth i rsi XNaN =
  rsi_of (xdiv (nth i (rolling_mean (Z.to_nat period)
                         (where_positive (diff prices))) NaN)
               (nth i (rolling_mean (Z.to_nat period)
                         (map neg (where_negative (diff prices)))) NaN)).
Proof.
  unfold calculate_rsi, rolling. destruct (period <? 0)%Z; [discriminate|].
  intros E Hi. inversion E.
  change XNaN with (rsi_of XNaN) at 1. rewrite map_nth. f_equal.
  apply nth_map2; rewrite rolling_mean_length;
    unfold where_positive, where_negative;
    now rewrite ?length_map, diff_length.
Qed.

(** X17.  The index has one value per price, and the first
    [period - 1] of them are [NaN]. *)
Theorem calculate_rsi_warmup prices period rsi :
  calculate_rsi prices period = Some rsi ->
  List.length rsi = List.length prices /\
  forall i, (Z.of_nat i + 1 < period)%Z -> nth i rsi XNaN = XNaN.
Proof.
  intros E. split; [now apply (rsi_length prices period)|].
  intros i Hi. destruct (Nat.lt_ge_cases i (List.length prices)) as [H|H].
  - rewrite (rsi_nth prices period rsi i E H).
    rewrite rolling_mean_warmup by lia. reflexivity.
  - apply nth_overflow. now rewrite (rsi_length prices period rsi E).
Qed.

Lemma calculate_rsi_warmup_witness :
  List.length [XNaN; XNaN; XFin (600 # 9); XFin (600 # 9); XFin (1200 # 15);
               XFin (1200 # 30)] = List.length wavy /\
  forall i, (Z.of_nat i + 1 < 3)%Z ->
            nth i [XNaN; XNaN; XFin (600 # 9); XFin (600 # 9);
                   XFin (1200 # 15); XFin (1200 # 30)] XNaN = XNaN.
Proof.
  apply (calculate_rsi_warmup wavy 3). reflexivity.
Defined.


Lemma nth_Fin qs i :
  (i < List.length qs)%nat -> nth i (map Fin qs) NaN = Fin (nth i qs 0).
Proof.
  intros H. rewrite (nth_indep _ NaN (Fin 0)) by (now rewrite length_map).
  apply (map_nth Fin).
Qed.

Lemma nth_diff qs i :
  (1 <= i)%nat -> (i < List.length qs)%nat ->
  nth i (diff (map Fin qs)) NaN = Fin (nth i qs 0 - nth (i - 1) qs 0).
Proof.
  intros H1 H. destruct qs as [|q0 rest]; [simpl in H; lia|].
  destruct i as [|k]; [lia|]. cbn [List.length] in H.
  cbn [map diff nth]. change (Fin q0 :: map Fin rest) with (map Fin (q0 :: rest)).
  rewrite (nth_map2 _ _ _ _ _ NaN NaN)
    by (rewrite length_map; cbn [List.length]; lia).
  rewrite !nth_Fin by (cbn [List.length]; lia).
  replace (S k - 1)%nat with k by lia. reflexivity.
Qed.

Lemma window_last {A} window (l : list A) i d :
  (i < List.length l)%nat -> (1 <= window)%nat ->
  In (nth i l d) (skipn (i + 1 - window) (firstn (i + 1) l)).
Proof.
  intros Hi Hw.
  set (k := (Nat.min window (i + 1) - 1)%nat).
  assert (E : nth k (skipn (i + 1 - window) (firstn (i + 1) l)) d = nth i l d).
  { rewrite nth_skipn, nth_firstn.
    replace (i + 1 - window + k)%nat with i by (unfold k; lia).
    replace (i <? i + 1)%nat with true; [reflexivity|].
    symmetry. apply Nat.ltb_lt. lia. }
  rewrite <- E. apply nth_In. rewrite (window_length _ l i Hi). unfold k. lia.
Qed.

Lemma Qsum_all_zero l : Forall (fun q => q == 0) l -> Qsum l == 0.
Proof.
  induction 1 as [|q l H F IH]; [reflexivity|].
  rewrite Qsum_cons, H, IH. reflexivity.
Qed.

Section Rising.
Variable qs : list Q.
Hypothesis Hinc : increasing qs.

Lemma rising_delta d :
  In d (diff (map Fin qs)) -> d = NaN \/ exists x, d = Fin x /\ 0 < x.
Proof.
  intros H. apply (In_nth _ _ NaN) in H. destruct H as (i & Hi & <-).
  rewrite diff_length, length_map in Hi.
  destruct i as [|k].
  - left. destruct qs; [simpl in Hi; lia | reflexivity].
  - right. rewrite nth_diff by lia. eexists. split; [reflexivity|].
    replace (S k - 1)%nat with k by lia.
    specialize (Hinc k). rewrite Nat.add_1_r in Hinc.
    specialize (Hinc Hi). lra.
Qed.

Lemma rising_losses :
  exists ls, map neg (where_negative (diff (map Fin qs))) = map Fin ls /\
             Forall (fun q => q == 0) ls.
Proof.
  unfold where_negative. rewrite map_map.
  assert (G : forall l,
             (forall d, In d l -> d = NaN \/ exists x, d = Fin x /\ 0 < x) ->
             exists ls,
               map (fun d => neg (if ltb d (Fin 0) then d else Fin 0)) l
               = map Fin ls /\ Forall (fun q => q == 0) ls).
  { induction l as [|d l IH]; intros H.
    - exists []. split; [reflexivity | constructor].
    - destruct IH as (ls & E & F); [intros; apply H; now right|].
      exists (- 0 :: ls). simpl. rewrite E.
      split; [|constructor; [reflexivity|exact F]].
      f_equal. destruct (H d (or_introl eq_refl)) as [-> | (x & -> & Hx)];
        [reflexivity|].
      simpl. apply Qlt_le_weak, Qle_bool_iff in Hx. now rewrite Hx. }
  apply G. apply rising_delta.
Qed.

Lemma rising_gain i :
  (1 <= i)%nat -> (i < List.length qs)%nat ->
  exists x, nth i (where_positive (diff (map Fin qs))) NaN = Fin x /\ 0 < x.
Proof.
  intros H1 Hi. unfold where_positive.
  set (f := fun d => if gtb d (Fin 0) then d else Fin 0).
  rewrite (nth_indep _ NaN (f NaN))
    by (now rewrite length_map, diff_length, length_map).
  rewrite (map_nth f), nth_diff by assumption. unfold f.
  specialize (Hinc (i - 1)%nat). replace (i - 1 + 1)%nat with i in Hinc by lia.
  specialize (Hinc Hi).
  assert (P : 0 < nth i qs 0 - nth (i - 1) qs 0) by lra.
  eexists. split; [|exact P]. simpl.
  apply Qle_bool_false in P. now rewrite P.
Qed.

End Rising.

(** X18.  While prices without a missing value only rise, the index is
    100 from the first position that has a full window and a price
    before it. *)
Theorem calculate_rsi_rising qs period rsi i :
  increasing qs -> (1 <= period)%Z ->
  calculate_rsi (map Fin qs) period = Some rsi ->
  (1 <= i)%nat -> (period <= Z.of_nat i + 1)%Z -> (i < List.length qs)%nat ->
  nth i rsi XNaN = XFin 100.
Proof.
  intros Hinc Hp E H1 Hw Hi.
  rewrite (rsi_nth _ period rsi i E) by (now rewrite length_map).
  destruct (nonneg_Fin _ (gains_nonneg (diff (map Fin qs)))) as (gs & Eg & Hg).
  destruct (rising_losses qs Hinc) as (ls & El & Hl).
  assert (Lg : List.length gs = List.length qs).
  { rewrite <- (length_map Fin gs), <- Eg. unfold where_positive.
    now rewrite length_map, diff_length, length_map. }
  assert (Ll : List.length ls = List.length qs).
  { rewrite <- (length_map Fin ls), <- El. unfold where_negative.
    now rewrite !length_map, diff_length, length_map. }
  destruct (rising_gain qs Hinc i H1 Hi) as (x & Ex & Hx).
  rewrite Eg in Ex. rewrite nth_Fin in Ex by lia. inversion Ex as [Ex'].
  rewrite Eg, El, !rolling_mean_Fin by lia.
  replace (i + 1 <? Z.to_nat period)%nat with false
    by (symmetry; apply Nat.ltb_ge; lia).
  set (wg := skipn (i + 1 - Z.to_nat period) (firstn (i + 1) gs)).
  set (wl := skipn (i + 1 - Z.to_nat period) (firstn (i + 1) ls)).
  assert (P : 0 < inject_Z (Z.of_nat (Z.to_nat period))).
  { change 0 with (inject_Z 0). rewrite <- Zlt_Qlt. lia. }
  assert (Sg : 0 < Qsum wg).
  { assert (Hin : In (nth i gs 0) wg) by (apply window_last; lia).
    assert (Hnn : Forall (fun q => 0 <= q) wg).
    { rewrite Forall_forall in *. intros q Hq. apply Hg.
      eapply window_incl. exact Hq. }
    pose proof (Qsum_In_le _ _ Hnn Hin). rewrite Ex' in *. lra. }
  assert (Sl : Qsum wl == 0).
  { apply Qsum_all_zero. rewrite Forall_forall in *. intros q Hq. apply Hl.
    eapply window_incl. exact Hq. }
  unfold xdiv.
  assert (Z1 : Qeq_bool (Qsum wl / inject_Z (Z.of_nat (Z.to_nat period))) 0
               = true).
  { apply Qeq_bool_iff. unfold Qdiv. rewrite Sl. ring. }
  assert (Z2 : Qeq_bool (Qsum wg / inject_Z (Z.of_nat (Z.to_nat period))) 0
               = false).
  { apply not_true_iff_false. intros C. apply Qeq_bool_iff in C.
    assert (0 < Qsum wg / inject_Z (Z.of_nat (Z.to_nat period)))
      by (apply Qlt_shift_div_l; lra).
    lra. }
  rewrite Z1, Z2. reflexivity.
Qed.

Lemma calculate_rsi_rising_witness :
  nth 2 [XNaN; XFin 100; XFin 100; XFin 100; XFin 100] XNaN = XFin 100.
Proof.
  apply (calculate_rsi_rising [10; 11; 13; 14; 18] 2).
  - intros i Hi. simpl in Hi.
    do 4 (destruct i as [|i]; [reflexivity|]). lia.
  - lia.
  - reflexivity.
  - lia.
  - lia.
  - simpl. lia.
Defined.


(** *** Variance, covariance and beta *)

Lemma two_or_more n :
  (2 <= n)%nat -> (Z.of_nat n - 1 <=? 0)%Z = false /\
                  Qeq_bool (inject_Z (Z.of_nat n)) 0 = false /\
                  Qeq_bool (inject_Z (Z.of_nat n - 1)) 0 = false /\
                  0 < inject_Z (Z.of_nat n - 1) /\ 0 < inject_Z (Z.of_nat n).
Proof.
  intros H. split; [apply Z.leb_gt; lia|].
  split; [apply of_nat_nonzero; lia|].
  assert (P : 0 < inject_Z (Z.of_nat n - 1))
    by (change 0 with (inject_Z 0); rewrite <- Zlt_Qlt; lia).
  assert (P' : 0 < inject_Z (Z.of_nat n))
    by (change 0 with (inject_Z 0); rewrite <- Zlt_Qlt; lia).
  split; [|split; assumption].
  apply not_true_iff_false. intros C. apply Qeq_bool_iff in C. lra.
Qed.

(** The variance of two or more finite values. *)
Lemma series_var_Fin m :
  (2 <= List.length m)%nat ->
  series_var (map Fin m) =
  Fin (Qsum (map (fun v => (Qsum m / inject_Z (Z.of_nat (List.length m)) - v)
                           * (Qsum m / inject_Z (Z.of_nat (List.length m)) - v))
                 m)
       / inject_Z (Z.of_nat (List.length m) - 1)).
Proof.
  intros H. destruct (two_or_more _ H) as (E1 & E2 & E3 & _).
  unfold series_var. cbv zeta. rewrite observed_Fin, length_map, E1, sum_Fin.
  assert (D : div (Fin (Qsum m)) (of_nat (List.length m))
              = Fin (Qsum m / inject_Z (Z.of_nat (List.length m))))
    by (unfold div, of_nat; now rewrite E2).
  rewrite D.
  assert (M : forall avg : Q,
             map (fun v => mul (sub (Fin avg) v) (sub (Fin avg) v)) (map Fin m)
             = map Fin (map (fun v => (avg - v) * (avg - v)) m))
    by (intros avg; rewrite !map_map; reflexivity).
  rewrite M, sum_Fin. unfold div. now rewrite E3.
Qed.

(** The covariance of two or more pairs of finite values. *)
Lemma cov_entry_Fin a b :
  (2 <= List.length a)%nat ->
  cov_entry (map Fin a) (map Fin b) =
  Fin (Qsum (map2 (fun x y =>
                     (x - Qsum a / inject_Z (Z.of_nat (List.length a)))
                     * (y - Qsum b / inject_Z (Z.of_nat (List.length a))))
                  a b)
       / inject_Z (Z.of_nat (List.length a) - 1)).
Proof.
  intros H. destruct (two_or_more _ H) as (E1 & E2 & E3 & _).
  unfold cov_entry. cbv zeta. rewrite length_map, E1, !sum_Fin.
  assert (D : forall s, div (Fin s) (of_nat (List.length a))
                        = Fin (s / inject_Z (Z.of_nat (List.length a))))
    by (intros s; unfold div, of_nat; now rewrite E2).
  rewrite !D.
  assert (M : forall (ma mb : Q) l l',
             map2 (fun x y => mul (sub x (Fin ma)) (sub y (Fin mb)))
                  (map Fin l) (map Fin l')
             = map Fin (map2 (fun x y => (x - ma) * (y - mb)) l l')).
  { intros ma mb l. induction l as [|x l IH]; intros [|y l'];
      try reflexivity.
    simpl map. rewrite !map2_cons. simpl. f_equal. apply IH. }
  rewrite M, sum_Fin. unfold div. now rewrite E3.
Qed.

Lemma complete_Fin frame :
  exists ps : list (Q * Q),
    filter complete frame = map (fun p => (Fin (fst p), Fin (snd p))) ps.
Proof.
  induction frame as [|[a b] frame (ps & IH)]; [now exists []|].
  simpl. unfold complete at 1. cbn [fst snd].
  destruct a as [|x]; [now exists ps|].
  destruct b as [|y]; [now exists ps|].
  exists ((x, y) :: ps). simpl. now rewrite IH.
Qed.



Lemma Qsum_ext l l' : Forall2 Qeq l l' -> Qsum l == Qsum l'.
Proof.
  induction 1 as [|x y l l' H F IH]; [reflexivity|].
  now rewrite !Qsum_cons, H, IH.
Qed.

Lemma squares_same (a : Q) m :
  Forall2 Qeq (map2 (fun x y => (x - a) * (y - a)) m m)
              (map (fun v => (a - v) * (a - v)) m).
Proof.
  induction m as [|x m IH]; [constructor|].
  rewrite map2_cons. simpl. constructor; [ring | exact IH].
Qed.

Lemma Qdiv_same v : ~ v == 0 -> v / v == 1.
Proof. intros H. field. exact H. Qed.

Lemma same_frame_complete values :
  exists qs,
    filter complete (map (fun v => (v, v)) values)
    = map (fun p => (Fin (fst p), Fin (snd p))) (map (fun q => (q, q)) qs).
Proof.
  induction values as [|v values (qs & IH)]; [now exists []|].
  simpl. unfold complete at 1. cbn [fst snd].
  destruct v as [|q]; [now exists qs|].
  exists (q :: qs). simpl. now rewrite IH.
Qed.

(** X20.  The beta of a series against itself is 1, whatever the series
    (missing values, a single observation and a constant series
    included). *)
Theorem calculate_beta_self values :
  exists q, calculate_beta (map (fun v => (v, v)) values) = Fin q /\ q == 1.
Proof.
  unfold calculate_beta. destruct (same_frame_complete values) as (qs & ->).
  rewrite !length_map.
  destruct (Nat.ltb_spec (List.length qs) 2) as [H|H];
    [exists 1; split; reflexivity|].
  rewrite !map_map. cbn [fst snd].
  rewrite series_var_Fin, cov_entry_Fin by exact H.
  cbn [num_eqb]. destruct (Qeq_bool _ 0) eqn:E; [exists 1; split; reflexivity|].
  unfold div. rewrite E. eexists. split; [reflexivity|].
  apply Qeq_bool_neq in E.
  rewrite (Qsum_ext _ _ (squares_same _ qs)).
  apply Qdiv_same. exact E.
Qed.

Lemma constant_mean c m :
  m <> [] -> Forall (fun q => q == c) m ->
  Qsum m / inject_Z (Z.of_nat (List.length m)) == c.
Proof.
  intros Hne H.
  assert (B : Forall (fun q => c <= q /\ q <= c) m).
  { rewrite Forall_forall in *. intros q Hq. rewrite (H q Hq). lra. }
  pose proof (mean_between c c m Hne B). lra.
Qed.

(** The variance of a constant series is zero. *)
Lemma series_var_constant c m :
  (2 <= List.length m)%nat -> Forall (fun q => q == c) m ->
  exists z, series_var (map Fin m) = Fin z /\ z == 0.
Proof.
  intros H Hc. rewrite series_var_Fin by exact H.
  eexists. split; [reflexivity|].
  destruct (two_or_more _ H) as (_ & _ & _ & P & _).
  assert (Hne : m <> []) by (intros E; rewrite E in H; simpl in H; lia).
  pose proof (constant_mean c m Hne Hc) as M.
  assert (Z : Qsum (map (fun v =>
                 (Qsum m / inject_Z (Z.of_nat (List.length m)) - v)
                 * (Qsum m / inject_Z (Z.of_nat (List.length m)) - v)) m) == 0).
  { apply Qsum_all_zero. apply Forall_forall. intros q Hq.
    apply in_map_iff in Hq. destruct Hq as (v & <- & Hv).
    rewrite Forall_forall in Hc. rewrite M, (Hc v Hv). ring. }
  rewrite Z. unfold Qdiv. ring.
Qed.

(** X21.  When the market return is exactly 0 on every complete
    observation, the market variance is exactly 0 and the beta is
    exactly 1, whatever the asset returns. *)
Theorem calculate_beta_flat_market frame :
  (forall p, In p frame -> complete p = true ->
             exists q, snd p = Fin q /\ q == 0) ->
  calculate_beta frame = Fin 1.
Proof.
  intros Hc. unfold calculate_beta.
  destruct (Nat.ltb_spec (List.length (filter complete frame)) 2) as [H|H];
    [reflexivity|].
  destruct (complete_Fin frame) as (ps & E).
  assert (Hm : Forall (fun q => q == 0) (map snd ps)).
  { apply Forall_forall. intros q Hq. apply in_map_iff in Hq.
    destruct Hq as (p & <- & Hp).
    assert (Hin : In (Fin (fst p), Fin (snd p)) (filter complete frame))
      by (rewrite E; apply (in_map (fun p => (Fin (fst p), Fin (snd p)))); exact Hp).
    apply filter_In in Hin. destruct Hin as [Hin Hcp].
    destruct (Hc _ Hin Hcp) as (q & Eq & Hq). simpl in Eq.
    inversion Eq; subst q. exact Hq. }
  rewrite E in *. rewrite length_map in H. rewrite !map_map. cbn [fst snd].
  rewrite <- (map_map snd Fin).
  destruct (series_var_constant 0 (map snd ps)) as (z & -> & Hz);
    [now rewrite length_map | exact Hm |].
  cbn [num_eqb]. now rewrite (proj2 (Qeq_bool_iff z 0) Hz).
Qed.

Lemma calculate_beta_flat_market_witness :
  calculate_beta [(Fin (1 # 100), Fin 0); (NaN, Fin (5 # 100));
                  (Fin (3 # 100), Fin 0);
                  (Fin (-2 # 100), Fin 0)] = Fin 1.
Proof.
  apply calculate_beta_flat_market.
  intros p [<-|[<-|[<-|[<-|[]]]]] Hp; try discriminate;
    (eexists; split; [reflexivity|reflexivity]).
Defined.

(** *** The Sharpe ratio of a series *)

(** X22.  With fewer than two returns there is no standard deviation,
    and both the volatility and the Sharpe ratio are [NaN], not 0. *)
Theorem sharpe_ratio_too_short sqrtQ returns risk_free_rate annualized :
  (List.length (observed returns) < 2)%nat ->
  calculate_sharpe_ratio sqrtQ returns risk_free_rate = NaN /\
  calculate_volatility sqrtQ returns annualized = NaN.
Proof.
  intros H.
  assert (E : series_std sqrtQ returns = NaN).
  { unfold series_std, series_var. cbv zeta.
    replace (Z.of_nat (List.length (observed returns)) - 1 <=? 0)%Z with true;
      [reflexivity|].
    symmetry. apply Z.leb_le. lia. }
  unfold calculate_sharpe_ratio, calculate_volatility. rewrite E.
  cbn [num_eqb mul]. split; [apply div_NaN_r | now destruct annualized].
Qed.

Lemma sharpe_ratio_too_short_witness :
  calculate_sharpe_ratio sample_sqrt [Fin (1 # 100); NaN] (Fin (2 # 100)) = NaN
  /\ calculate_volatility sample_sqrt [Fin (1 # 100); NaN] true = NaN.
Proof.
  apply (sharpe_ratio_too_short sample_sqrt [Fin (1 # 100); NaN]).
  simpl. lia.
Defined.

(** X23.  Two or more returns that are all exactly 0 have a standard
    deviation of exactly 0: with a square root that is 0 at 0, the Sharpe
    ratio is 0 instead of a division by zero. *)
Theorem sharpe_ratio_constant sqrtQ qs risk_free_rate :
  (forall q, q == 0 -> sqrtQ q == 0) ->
  (2 <= List.length qs)%nat -> Forall (fun q => q == 0) qs ->
  calculate_sharpe_ratio sqrtQ (map Fin qs) risk_free_rate = Fin 0.
Proof.
  intros Hsqrt H Hc. unfold calculate_sharpe_ratio, series_std.
  destruct (series_var_constant 0 qs H Hc) as (z & -> & Hz).
  unfold np_sqrt.
  assert (E : Qle_bool 0 z = true)
    by (apply Qle_bool_iff; rewrite Hz; apply Qle_refl).
  rewrite E. cbn [num_eqb].
  now rewrite (proj2 (Qeq_bool_iff _ 0) (Hsqrt z Hz)).
Qed.

Lemma sharpe_ratio_constant_witness :
  calculate_sharpe_ratio sample_sqrt (map Fin [0; 0; 0 # 5])
                         (Fin (2 # 100)) = Fin 0.
Proof.
  apply (sharpe_ratio_constant sample_sqrt).
  - exact MarkowitzExtras.sample_sqrt_zero.
  - simpl. lia.
  - repeat constructor.
Defined.

End StatsProps.

(* ================================================================== *)
(** ** The price loader *)

Module LoaderProps.
Import Markowitz MarkowitzSpec Loader NumFacts NumMore.
Import Ascii.

Lemma dropna_columns_wide df :
  well_formed (dropna_columns df).
Proof.
  unfold well_formed, dropna_columns. cbn [columns rows].
  apply Forall_forall. intros r Hr. apply in_map_iff in Hr.
  destruct Hr as (r' & <- & _). now rewrite !length_map.
Qed.

Lemma dropna_columns_column df j :
  (j < List.length (columns (dropna_columns df)))%nat ->
  column j (rows (dropna_columns df))
  = column (nth j (kept_columns df) 0%nat) (rows df).
Proof.
  unfold dropna_columns. cbn [columns rows]. rewrite length_map. intros H.
  unfold column. rewrite map_map. apply map_ext. intros r.
  rewrite (nth_indep _ NaN ((fun j => nth j r NaN) 0%nat))
    by (now rewrite length_map).
  now rewrite (map_nth (fun j => nth j r NaN)).
Qed.

(** X24.  [get_historical_data] raises for an empty ticker list and for
    nothing else.  For several tickers the frame it returns is the empty
    frame or a frame that is not empty, has one cell per column in every
    row, takes its column labels from the downloaded closing prices and
    has a value in every column. *)
Theorem get_historical_data_frame download tickers :
  (get_historical_data download tickers = Raised <-> tickers = []) /\
  forall df,
    (2 <= List.length tickers)%nat ->
    get_historical_data download tickers = Returned df ->
    df = empty_frame \/
    (empty df = false /\ well_formed df /\
     (exists data close,
         download tickers = Some data /\ Close data = Some close /\
         forall c, In c (columns df) -> In c (columns close)) /\
     forall j, (j < List.length (columns df))%nat ->
               exists v, In v (column j (rows df)) /\ isna v = false).
Proof.
  split.
  - unfold get_historical_data. destruct tickers as [|t ts]; [tauto|].
    destruct (try_download download (t :: ts)); split; discriminate.
  - intros df Hn. unfold get_historical_data, try_download.
    destruct tickers as [|t [|t' ts]]; try (simpl in Hn; lia).
    destruct (download (t :: t' :: ts)) as [data|] eqn:Ed;
      [|intros E; inversion E; now left].
    destruct (Close data) as [close|] eqn:Ec;
      [|intros E; inversion E; now left].
    destruct (empty (dropna_columns close)) eqn:Ee;
      intros E; inversion E; subst df; [now left|].
    right. split; [exact Ee|]. split; [apply dropna_columns_wide|]. split.
    + exists data, close. split; [reflexivity|]. split; [exact Ec|].
      intros c Hc. unfold dropna_columns in Hc. cbn [columns] in Hc.
      apply in_map_iff in Hc. destruct Hc as (j & <- & Hj).
      unfold kept_columns in Hj. apply filter_In in Hj. destruct Hj as [Hj _].
      apply in_seq in Hj. apply nth_In. lia.
    + intros j Hj. rewrite dropna_columns_column by exact Hj.
      unfold dropna_columns in Hj. cbn [columns] in Hj. rewrite length_map in Hj.
      pose proof (nth_In (kept_columns close) 0%nat Hj) as Hk.
      unfold kept_columns in Hk at 2. apply filter_In in Hk.
      destruct Hk as [_ Hk]. apply negb_true_iff in Hk.
      destruct (forallb_forall isna
                  (column (nth j (kept_columns close) 0%nat) (rows close)))
        as [_ F].
      destruct (existsb (fun v => negb (isna v))
                  (column (nth j (kept_columns close) 0%nat) (rows close)))
        eqn:Ex.
      * apply existsb_exists in Ex. destruct Ex as (v & Hv & Hna).
        exists v. split; [exact Hv | now apply negb_true_iff].
      * exfalso. rewrite F in Hk; [discriminate|]. intros v Hv.
        destruct (isna v) eqn:Ev; [reflexivity|].
        assert (C : existsb (fun v => negb (isna v))
                      (column (nth j (kept_columns close) 0%nat) (rows close))
                    = true)
          by (apply existsb_exists; exists v; rewrite Ev; auto).
        congruence.
Qed.

Lemma get_historical_data_frame_witness :
  let tickers := ["AAA"; "BBB"; "CCC"]%string in
  let df := {| columns := ["AAA"; "CCC"]%string;
               rows := [[Fin 100; Fin 50]; [Fin 110; Fin 50]; [Fin 99; NaN]] |} in
  df = empty_frame \/
  (empty df = false /\ well_formed df /\
   (exists data close,
       sample_download tickers = Some data /\ Close data = Some close /\
       forall c, In c (columns df) -> In c (columns close)) /\
   forall j, (j < List.length (columns df))%nat ->
             exists v, In v (column j (rows df)) /\ isna v = false).
Proof.
  intros tickers df.
  apply (proj2 (get_historical_data_frame sample_download tickers) df).
  - simpl. lia.
  - reflexivity.
Defined.

(** X27.  For a single ticker, the frame that [get_historical_data]
    returns is the empty frame or the downloaded closing prices under one
    column, labelled with the ticker. *)
Theorem get_historical_data_single download ticker df :
  get_historical_data download [ticker] = Returned df ->
  df = empty_frame \/
  exists data close,
    download [ticker] = Some data /\ Close data = Some close /\
    List.length (columns close) = 1%nat /\
    columns df = [ticker] /\ rows df = rows close.
Proof.
  unfold get_historical_data, try_download.
  destruct (download [ticker]) as [data|] eqn:Ed;
    [|intros E; inversion E; now left].
  destruct (Close data) as [close|] eqn:Ec;
    [|intros E; inversion E; now left].
  destruct (Nat.eqb_spec (List.length (columns close)) 1) as [L|L];
    intros E; inversion E; subst df; [right | now left].
  exists data, close. auto.
Qed.

Lemma get_historical_data_single_witness :
  let df := {| columns := ["AAA"]%string;
               rows := [[Fin 100]; [Fin 110]; [Fin 99]] |} in
  df = empty_frame \/
  exists data close,
    single_download ["AAA"%string] = Some data /\
    Close data = Some close /\
    List.length (columns close) = 1%nat /\
    columns df = ["AAA"%string] /\ rows df = rows close.
Proof.
  intros df.
  apply (get_historical_data_single single_download "AAA"%string df).
  reflexivity.
Defined.

(** *** The ticker list *)








End LoaderProps.
